(** * Chunked upload page: a shallow embedding of [src/app/page.tsx]

    The page splits a file into fixed-size chunks, asks the backend for one
    presigned destination per chunk, PUTs the chunks one after the other
    with a bounded retry, sorts the collected ETags by part number, asks the
    backend to complete the upload and then polls a status endpoint.  A
    Cancel button sets a shared flag that the upload loop consults between
    chunks.

    Layout of the development:
    - [Text]      strings as the code handles them (template literals,
                  [trim], the quote-stripping [replace]);
    - [Chunker]   the [while] loop of [chunkFile];
    - [Sorting]   [Array.prototype.sort] with the comparator of the page;
    - [Transport] what a [fetch] can settle with, the [try] body of
                  [uploadChunkToS3] and its retry;
    - [Page]      the component as an event-driven machine: every handler
                  runs to its next [await], as on the JavaScript event
                  loop, and the environment delivers clicks, settled
                  requests and timer callbacks;
    - [Props], [Scenarios]  the vocabulary of the statements and the
                  concrete sessions they are tried on;
    - [ChunkerFacts], [SortingFacts], [TransportFacts], [PageFacts],
      [ScenarioFacts]  the proofs. *)

From Stdlib Require Import ZArith List String Ascii Bool Lia Arith.
From Stdlib Require Import Permutation Sorted QArith DecimalString.
Import ListNotations.

Open Scope string_scope.
Open Scope list_scope.
Open Scope Z_scope.

(** String concatenation, written as in the source. *)
Infix "+++" := String.append (right associativity, at level 60).

(* ===================================================================== *)
(** ** Strings *)
(* ===================================================================== *)

Module Text.

(** The two quote characters of the character class in the pattern that
    [uploadChunkToS3] hands to [replace]: double quote and apostrophe. *)
Definition dquote : ascii := "034"%char.
Definition squote : ascii := "039"%char.

Definition is_quote (c : ascii) : bool :=
  Ascii.eqb c dquote || Ascii.eqb c squote.

(** White space and line terminators removed by [String.prototype.trim].
    Header values are byte strings, so only the code points below 256
    matter: TAB, LF, VT, FF, CR, SPACE and NBSP. *)
Definition is_space (c : ascii) : bool :=
  let n := nat_of_ascii c in
  (Nat.eqb n 9 || Nat.eqb n 10 || Nat.eqb n 11 || Nat.eqb n 12 ||
   Nat.eqb n 13 || Nat.eqb n 32 || Nat.eqb n 160)%bool.

(** A number in a template literal: decimal digits, with a minus sign. *)
Definition string_of_Z (z : Z) : string :=
  NilZero.string_of_int (Z.to_int z).

Definition string_of_nat (n : nat) : string := string_of_Z (Z.of_nat n).

(** A JavaScript string is falsy exactly when it is empty. *)
Definition truthy (s : string) : bool :=
  match s with EmptyString => false | String _ _ => true end.

(** [a || b] on strings where [a] may be [null]. *)
Definition or_else (a : option string) (b : option string) : option string :=
  match a with
  | Some s => if truthy s then a else b
  | None => b
  end.

Fixpoint trimStart (s : string) : string :=
  match s with
  | String c s' => if is_space c then trimStart s' else s
  | EmptyString => EmptyString
  end.

(** [trimEnd] drops the white space that is followed by white space only. *)
Fixpoint trimEnd (s : string) : string :=
  match s with
  | EmptyString => EmptyString
  | String c s' =>
      match trimEnd s' with
      | EmptyString => if is_space c then EmptyString else String c EmptyString
      | t => String c t
      end
  end.

Definition trim (s : string) : string := trimEnd (trimStart s).

(** The first alternative of the pattern: one quote at index 0. *)
Definition strip_leading_quote (s : string) : string :=
  match s with
  | String c s' => if is_quote c then s' else s
  | EmptyString => EmptyString
  end.

(** The second alternative: one quote at the last index.  It is
    tried on what the first alternative left, because a global replace
    scans on from the end of the previous match. *)
Fixpoint strip_trailing_quote (s : string) : string :=
  match s with
  | EmptyString => EmptyString
  | String c EmptyString => if is_quote c then EmptyString else s
  | String c s' => String c (strip_trailing_quote s')
  end.

(** [s.replace(pattern, empty)] with the global flag: both alternatives
    are applied, each at most once. *)
Definition replace_quotes (s : string) : string :=
  strip_trailing_quote (strip_leading_quote s).

Definition lower (c : ascii) : ascii :=
  let n := nat_of_ascii c in
  if (Nat.leb 65 n && Nat.leb n 90)%bool then ascii_of_nat (n + 32) else c.

Fixpoint lowercase (s : string) : string :=
  match s with
  | EmptyString => EmptyString
  | String c s' => String (lower c) (lowercase s')
  end.

Fixpoint last_char (s : string) : option ascii :=
  match s with
  | EmptyString => None
  | String c EmptyString => Some c
  | String _ s' => last_char s'
  end.

(** [mentions p s]: [p] occurs in [s]. *)
Fixpoint mentions (p s : string) : bool :=
  String.prefix p s ||
  match s with
  | EmptyString => false
  | String _ s' => mentions p s'
  end.

End Text.

(* ===================================================================== *)
(** ** The chunker *)
(* ===================================================================== *)

Module Chunker.

Record File := mkFile { name : string; type : string; size : Z }.

(** A [Blob] cut out of the selected file: the bytes [[blob_start,
    blob_end)] of it. *)
Record Blob := mkBlob { blob_start : Z; blob_end : Z }.

(** [Blob.prototype.slice]: negative offsets count from the end, and
    both offsets are clamped to the blob. *)
Definition slice (file : File) (start end_ : Z) : Blob :=
  let sz := size file in
  let relativeStart := if start <? 0 then Z.max (sz + start) 0 else Z.min start sz in
  let relativeEnd := if end_ <? 0 then Z.max (sz + end_) 0 else Z.min end_ sz in
  let span := Z.max (relativeEnd - relativeStart) 0 in
  mkBlob relativeStart (relativeStart + span).

Definition CHUNK_SIZE : Z := 5 * 1024 * 1024.

(** The [while (start < file.size)] loop.  [fuel] bounds the number of
    iterations; [None] means the loop is still running when it is used up. *)
Fixpoint chunkLoop (fuel : nat) (C : Z) (file : File) (start : Z)
         (chunks : list Blob) : option (list Blob) :=
  if start <? size file then
    match fuel with
    | O => None
    | S fuel' =>
        let end_ := Z.min (start + C) (size file) in
        chunkLoop fuel' C file end_ (chunks ++ [slice file start end_])
    end
  else Some chunks.

(** Iterations that suffice for a positive chunk size (see
    [chunkLoop_enough_fuel]). *)
Definition iterations (C : Z) (file : File) : nat :=
  S (Z.to_nat (size file / C)).

(** [chunkFile] for a chunk size [C]; the [None] branch is not reached
    when [C] is positive. *)
Definition chunkFileWith (C : Z) (file : File) : list Blob :=
  match chunkLoop (iterations C file) C file 0 [] with
  | Some chunks => chunks
  | None => []
  end.

Definition chunkFile (file : File) : list Blob := chunkFileWith CHUNK_SIZE file.

(** [ceil (a / b)] for positive [b]. *)
Definition ceil_div (a b : Z) : Z := (a + b - 1) / b.

(** The byte range the specification gives chunk [i]. *)
Definition range (C sz : Z) (i : nat) : Blob :=
  mkBlob (Z.of_nat i * C) (Z.min ((Z.of_nat i + 1) * C) sz).

End Chunker.

(* ===================================================================== *)
(** ** Sorting the collected parts *)
(* ===================================================================== *)

Module Sorting.

Record CompletePart := mkCompletePart { ETag : string; PartNumber : Z }.

(** The comparator handed to [sort]: [(a, b) => a.PartNumber - b.PartNumber]. *)
Definition compareParts (a b : CompletePart) : Z := PartNumber a - PartNumber b.

(** [Array.prototype.sort] is a stable sort; a stable sort is determined by
    its comparator, and insertion from the right is one.  [insert] puts [p]
    before the first element it does not compare greater than, so entries
    with equal part numbers keep their order. *)
Fixpoint insert (p : CompletePart) (l : list CompletePart) : list CompletePart :=
  match l with
  | [] => [p]
  | q :: l' => if compareParts p q <=? 0 then p :: l else q :: insert p l'
  end.

Fixpoint sort (l : list CompletePart) : list CompletePart :=
  match l with
  | [] => []
  | p :: l' => insert p (sort l')
  end.

(** [1; 2; ...; n] *)
Definition one_to (n : nat) : list Z := map Z.of_nat (seq 1 n).

End Sorting.

(* ===================================================================== *)
(** ** Requests and responses *)
(* ===================================================================== *)

Module Transport.
Import Text Chunker Sorting.

(** A thrown value: an [Error] instance with its message, or anything
    else. *)
Inductive Exn :=
| Error (message : string)
| Thrown (value : string).

Record PresignedPutPart := mkPart { part_number : Z; url : string }.

Record StartUploadResponse := mkStart { parts : list PresignedPutPart; video : string }.

Record UploadStatus := mkStatus { status_of : string; video_of : string }.

(** A [Response] as the page reads it.  [headers] is what
    [response.headers.entries()] yields (names in lower case); [text] is
    the body; [json] is what [response.json()] gives at the type the
    caller declares, or the exception it rejects with. *)
Record Response (J : Type) := mkResponse {
  ok : bool;
  status : Z;
  statusText : string;
  headers : list (string * string);
  text : string;
  json : Exn + J
}.
Arguments mkResponse {J}.
Arguments ok {J}.
Arguments status {J}.
Arguments statusText {J}.
Arguments headers {J}.
Arguments text {J}.
Arguments json {J}.

(** How the promise returned by [fetch] settles. *)
Inductive Settled (J : Type) :=
| Rejected (e : Exn)
| Fulfilled (r : Response J).
Arguments Rejected {J}.
Arguments Fulfilled {J}.

(** The requests of the page, one constructor per endpoint. *)
Inductive Request :=
| PutChunk (to : string) (body : Blob)
| PostStart (upload_id file_name total_parts : string) (content_type : option string)
| PostCancel (videoUid : string)
| PostComplete (videoUid : string) (parts : list CompletePart)
| GetStatus (videoUid : string).

(** [Headers.prototype.get]: the lookup ignores the case of [name]. *)
Fixpoint headers_get (name : string) (hs : list (string * string)) : option string :=
  match hs with
  | [] => None
  | (k, v) :: hs' => if String.eqb k (lowercase name) then Some v else headers_get name hs'
  end.

(** [JSON.stringify] of a string. *)
Definition hex_digit (n : nat) : ascii :=
  if Nat.ltb n 10 then ascii_of_nat (48 + n) else ascii_of_nat (87 + n).

Definition json_escape (c : ascii) : string :=
  let n := nat_of_ascii c in
  let bs := String "092"%char EmptyString in
  if Ascii.eqb c dquote then bs +++ String dquote EmptyString
  else if Nat.eqb n 92 then bs +++ bs
  else if Nat.eqb n 8 then bs +++ "b"
  else if Nat.eqb n 9 then bs +++ "t"
  else if Nat.eqb n 10 then bs +++ "n"
  else if Nat.eqb n 12 then bs +++ "f"
  else if Nat.eqb n 13 then bs +++ "r"
  else if Nat.ltb n 32 then
    bs +++ "u00" +++ String (hex_digit (Nat.div n 16)) (String (hex_digit (Nat.modulo n 16)) EmptyString)
  else String c EmptyString.

Fixpoint json_chars (s : string) : string :=
  match s with
  | EmptyString => EmptyString
  | String c s' => json_escape c +++ json_chars s'
  end.

Definition json_string (s : string) : string :=
  String dquote (json_chars s +++ String dquote EmptyString).

Fixpoint json_members (hs : list (string * string)) : string :=
  match hs with
  | [] => EmptyString
  | [(k, v)] => json_string k +++ ":" +++ json_string v
  | (k, v) :: hs' => json_string k +++ ":" +++ json_string v +++ "," +++ json_members hs'
  end.

(** [JSON.stringify(Object.fromEntries(response.headers.entries()))], for
    header names that are not array indices (those would be listed first). *)
Definition JSON_stringify_headers (hs : list (string * string)) : string :=
  "{" +++ json_members hs +++ "}".

(** The value of [etag] after the [replace] and the [trim]. *)
Definition normalize_etag (raw : string) : string := trim (replace_quotes raw).

(** [response.headers.get('ETag') || response.headers.get('etag') ||
    response.headers.get('Etag') || ''] *)
Definition etag_header (hs : list (string * string)) : string :=
  match or_else (or_else (or_else (headers_get "ETag" hs) (headers_get "etag" hs))
                         (headers_get "Etag" hs)) (Some EmptyString) with
  | Some s => s
  | None => EmptyString
  end.

Definition upload_failed_message (part : PresignedPutPart) (r : Response unit) : string :=
  "Failed to upload chunk " +++ string_of_Z (part_number part) +++ ": " +++
  string_of_Z (status r) +++ " " +++ statusText r +++
  (if truthy (text r) then " - " +++ text r else EmptyString).

Definition etag_missing_message (part : PresignedPutPart) (r : Response unit) : string :=
  "Failed to extract ETag from chunk " +++ string_of_Z (part_number part) +++
  " response. Status: " +++ string_of_Z (status r) +++ ". Headers: " +++
  JSON_stringify_headers (headers r).

(** The [try] block of [uploadChunkToS3] once its [fetch] has settled:
    the ETag it returns, or what it throws.  (The body of a failed
    response is read with a second [await]; nothing the page does in
    between depends on it, so the body comes with the response here.  The
    [console] diagnostics of the block are left out.) *)
Definition put_attempt (part : PresignedPutPart) (s : Settled unit) : Exn + string :=
  match s with
  | Rejected e => inl e
  | Fulfilled r =>
      if negb (ok r) then inl (Error (upload_failed_message part r))
      else
        let etag := normalize_etag (etag_header (headers r)) in
        if negb (truthy etag) then inl (Error (etag_missing_message part r))
        else inr etag
  end.

Definition MAX_RETRIES : nat := 2.

(** One call of [uploadChunkToS3] against a transport whose successive
    [fetch] calls settle as [replies] say: [outcome] is what the call
    returns or throws ([None] while it is still waiting for a reply that
    the script does not hold), [sent] the requests it made. *)
Record Upload := mkUpload { outcome : option (Exn + string); sent : list Request }.

Fixpoint uploadChunkToS3 (replies : list (Settled unit)) (chunk : Blob)
         (part : PresignedPutPart) (retryCount : nat) : Upload :=
  let request := PutChunk (url part) chunk in
  match replies with
  | [] => mkUpload None [request]
  | reply :: replies' =>
      match put_attempt part reply with
      | inr etag => mkUpload (Some (inr etag)) [request]
      | inl error =>
          if Nat.ltb retryCount MAX_RETRIES then
            let again := uploadChunkToS3 replies' chunk part (retryCount + 1) in
            mkUpload (outcome again) (request :: sent again)
          else mkUpload (Some (inl error)) [request]
      end
  end.

(** [startUpload]: the request it sends and what it makes of the reply. *)
Definition startUpload_request (uploadId fileName : string) (totalParts : nat)
           (contentType : string) : Request :=
  PostStart uploadId fileName (string_of_nat totalParts)
            (if truthy contentType then Some contentType else None).

Definition startUpload_settle (s : Settled StartUploadResponse) : Exn + StartUploadResponse :=
  match s with
  | Rejected e => inl e
  | Fulfilled r =>
      if negb (ok r) then
        inl (Error ("Failed to start upload: " +++ statusText r +++ " - " +++ text r))
      else json r
  end.

(** [cancelUpload] swallows every failure; [Some e] is what it logs. *)
Definition cancelUpload_settle (s : Settled unit) : option Exn :=
  match s with
  | Rejected e => Some e
  | Fulfilled r =>
      if negb (ok r) then
        Some (Error ("Failed to cancel upload: " +++ statusText r +++ " - " +++ text r))
      else None
  end.

Definition completeUpload_settle (s : Settled unit) : Exn + unit :=
  match s with
  | Rejected e => inl e
  | Fulfilled r =>
      if negb (ok r) then
        inl (Error ("Failed to complete upload: " +++ statusText r +++ " - " +++ text r))
      else inr tt
  end.

Definition checkStatus_settle (s : Settled UploadStatus) : Exn + UploadStatus :=
  match s with
  | Rejected e => inl e
  | Fulfilled r =>
      if negb (ok r) then inl (Error ("Failed to check status: " +++ statusText r))
      else json r
  end.

End Transport.

(* ===================================================================== *)
(** ** The page *)
(* ===================================================================== *)

Module Page.
Import Text Chunker Sorting Transport.

(** What the page does to the outside world, in order. *)
Inductive Effect :=
| Fetch (request : Request)
| SetTimeout (ms : Z)
| ConsoleError (label : string) (e : Exn).

(** Where [handleUpload] is suspended. *)
Inductive Pc :=
| Idle
| AwaitStart
| AwaitPut (retryCount : nat)
| AwaitComplete
| AwaitTimer
| AwaitStatus.

(** The component: its React state, the [cancelledRef] ref, the locals
    of the running [handleUpload] (they keep their last value once it has
    returned), the effects so far and the number of [cancelUpload] calls
    whose request has not settled yet.  [progress] is a floating-point
    number in the page and a rational here: it only feeds the progress
    bar, and no statement below depends on its rounding. *)
Record Config := mkConfig {
  file : option File;
  uploading : bool;
  progress : Q;
  status : string;
  error : string;
  videoUid : option string;
  cancelled : bool;
  cancelledRef : bool;
  pc : Pc;
  chunks : list Blob;
  startResponse : StartUploadResponse;
  i : nat;
  completeParts : list CompletePart;
  trace : list Effect;
  pendingCancels : nat
}.

Definition setFile (v : option File) (c : Config) : Config :=
  mkConfig v (uploading c) (progress c) (status c) (error c) (videoUid c)
           (cancelled c) (cancelledRef c) (pc c) (chunks c) (startResponse c)
           (i c) (completeParts c) (trace c) (pendingCancels c).

Definition setUploading (v : bool) (c : Config) : Config :=
  mkConfig (file c) v (progress c) (status c) (error c) (videoUid c)
           (cancelled c) (cancelledRef c) (pc c) (chunks c) (startResponse c)
           (i c) (completeParts c) (trace c) (pendingCancels c).

Definition setProgress (v : Q) (c : Config) : Config :=
  mkConfig (file c) (uploading c) v (status c) (error c) (videoUid c)
           (cancelled c) (cancelledRef c) (pc c) (chunks c) (startResponse c)
           (i c) (completeParts c) (trace c) (pendingCancels c).

Definition setStatus (v : string) (c : Config) : Config :=
  mkConfig (file c) (uploading c) (progress c) v (error c) (videoUid c)
           (cancelled c) (cancelledRef c) (pc c) (chunks c) (startResponse c)
           (i c) (completeParts c) (trace c) (pendingCancels c).

Definition setError (v : string) (c : Config) : Config :=
  mkConfig (file c) (uploading c) (progress c) (status c) v (videoUid c)
           (cancelled c) (cancelledRef c) (pc c) (chunks c) (startResponse c)
           (i c) (completeParts c) (trace c) (pendingCancels c).

Definition setVideoUid (v : option string) (c : Config) : Config :=
  mkConfig (file c) (uploading c) (progress c) (status c) (error c) v
           (cancelled c) (cancelledRef c) (pc c) (chunks c) (startResponse c)
           (i c) (completeParts c) (trace c) (pendingCancels c).

Definition setCancelled (v : bool) (c : Config) : Config :=
  mkConfig (file c) (uploading c) (progress c) (status c) (error c)
           (videoUid c) v (cancelledRef c) (pc c) (chunks c)
           (startResponse c) (i c) (completeParts c) (trace c)
           (pendingCancels c).

Definition setCancelledRef (v : bool) (c : Config) : Config :=
  mkConfig (file c) (uploading c) (progress c) (status c) (error c)
           (videoUid c) (cancelled c) v (pc c) (chunks c) (startResponse c)
           (i c) (completeParts c) (trace c) (pendingCancels c).

Definition setPc (v : Pc) (c : Config) : Config :=
  mkConfig (file c) (uploading c) (progress c) (status c) (error c)
           (videoUid c) (cancelled c) (cancelledRef c) v (chunks c)
           (startResponse c) (i c) (completeParts c) (trace c)
           (pendingCancels c).

Definition setChunks (v : list Blob) (c : Config) : Config :=
  mkConfig (file c) (uploading c) (progress c) (status c) (error c)
           (videoUid c) (cancelled c) (cancelledRef c) (pc c) v
           (startResponse c) (i c) (completeParts c) (trace c)
           (pendingCancels c).

Definition setStartResponse (v : StartUploadResponse) (c : Config) : Config :=
  mkConfig (file c) (uploading c) (progress c) (status c) (error c)
           (videoUid c) (cancelled c) (cancelledRef c) (pc c) (chunks c) v
           (i c) (completeParts c) (trace c) (pendingCancels c).

Definition setI (v : nat) (c : Config) : Config :=
  mkConfig (file c) (uploading c) (progress c) (status c) (error c)
           (videoUid c) (cancelled c) (cancelledRef c) (pc c) (chunks c)
           (startResponse c) v (completeParts c) (trace c) (pendingCancels c).

Definition setCompleteParts (v : list CompletePart) (c : Config) : Config :=
  mkConfig (file c) (uploading c) (progress c) (status c) (error c)
           (videoUid c) (cancelled c) (cancelledRef c) (pc c) (chunks c)
           (startResponse c) (i c) v (trace c) (pendingCancels c).

Definition setTrace (v : list Effect) (c : Config) : Config :=
  mkConfig (file c) (uploading c) (progress c) (status c) (error c)
           (videoUid c) (cancelled c) (cancelledRef c) (pc c) (chunks c)
           (startResponse c) (i c) (completeParts c) v (pendingCancels c).

Definition setPendingCancels (v : nat) (c : Config) : Config :=
  mkConfig (file c) (uploading c) (progress c) (status c) (error c)
           (videoUid c) (cancelled c) (cancelledRef c) (pc c) (chunks c)
           (startResponse c) (i c) (completeParts c) (trace c) v.

Definition emit (e : Effect) (c : Config) : Config := setTrace (trace c ++ [e]) c.

(** The page as first rendered. *)
Definition init : Config :=
  mkConfig None false 0%Q EmptyString EmptyString None false false
           Idle [] (mkStart [] EmptyString) 0%nat [] [] 0%nat.

(** [!videoUid]: [null] and the empty string are falsy. *)
Definition falsy (v : option string) : bool :=
  match v with
  | Some s => negb (truthy s)
  | None => true
  end.

(** The [finally] block of [handleUpload]. *)
Definition finally_ (c : Config) : Config := setPc Idle (setUploading false c).

(** [err instanceof Error ? err.message : 'An unknown error occurred'] *)
Definition errorMessage (err : Exn) : string :=
  match err with
  | Error message => message
  | Thrown _ => "An unknown error occurred"
  end.

(** The [catch] block of [handleUpload], followed by [finally]. *)
Definition catch_ (err : Exn) (c : Config) : Config :=
  finally_
    (if negb (cancelledRef c) then
       emit (ConsoleError "Upload error:" err)
            (setStatus "Upload failed" (setError (errorMessage err) c))
     else c).

(** [handleUpload] from the point where [await pollStatus(...)] resolves. *)
Definition after_poll (c : Config) : Config :=
  finally_
    (if negb (cancelledRef c) then setStatus "Upload completed successfully!" c
     else c).

(** [pollStatus] up to its first suspension: [setTimeout(poll, 3000)]. *)
Definition pollStatus (c : Config) : Config :=
  setPc AwaitTimer (emit (SetTimeout 3000) c).

(** [poll], called by a timer, up to [await checkStatus(videoUid)]. *)
Definition poll (c : Config) : Config :=
  if cancelledRef c then after_poll c
  else setPc AwaitStatus (emit (Fetch (GetStatus (video (startResponse c)))) c).

(** [poll] from the point where [checkStatus] settles. *)
Definition poll_settled (r : Settled UploadStatus) (c : Config) : Config :=
  match checkStatus_settle r with
  | inr statusData =>
      let c := setStatus ("Status: " +++ status_of statusData) c in
      if String.eqb (status_of statusData) "completed" then
        after_poll (setProgress 100%Q c)
      else if cancelledRef c then after_poll c
      else setPc AwaitTimer (emit (SetTimeout 5000) c)
  | inl error =>
      if cancelledRef c then after_poll c else catch_ error c
  end.

(** [handleUpload] from the point where [completeUpload] settles. *)
Definition complete_settled (r : Settled unit) (c : Config) : Config :=
  match completeUpload_settle r with
  | inl error => catch_ error c
  | inr _ => pollStatus (setStatus "Waiting for processing..." (setProgress 99%Q c))
  end.

(** [handleUpload] after the [for] loop: the second cancellation check,
    the in-place sort and the call of [completeUpload]. *)
Definition after_loop (c : Config) : Config :=
  if cancelledRef c then finally_ (setStatus "Upload cancelled" c)
  else
    let c := setCompleteParts (sort (completeParts c)) c in
    let c := setProgress 90%Q (setStatus "Completing upload..." c) in
    setPc AwaitComplete
          (emit (Fetch (PostComplete (video (startResponse c)) (completeParts c))) c).

(** A call [uploadChunkToS3(chunk, part, retryCount)] up to its [fetch].
    [part] is [None] when [startResponse.parts[i]] is [undefined]: reading
    [part.part_number] then throws in the [try] block and again in the
    [catch] block (or the [catch] block rethrows), so the call rejects
    without a request. *)
Definition uploadChunkToS3_call (chunk : Blob) (part : option PresignedPutPart)
           (retryCount : nat) (c : Config) : Config :=
  match part with
  | Some p => setPc (AwaitPut retryCount) (emit (Fetch (PutChunk (url p) chunk)) c)
  | None =>
      catch_ (Error "Cannot read properties of undefined (reading 'part_number')") c
  end.

(** [80 / totalParts] *)
Definition uploadProgressStep (c : Config) : Q :=
  (80 / inject_Z (Z.of_nat (List.length (chunks c))))%Q.

(** The [for] loop from its test [i < chunks.length] up to the next
    [await]. *)
Definition for_loop (c : Config) : Config :=
  match nth_error (chunks c) (i c) with
  | None => after_loop c
  | Some chunk =>
      if cancelledRef c then
        after_loop (setStatus "Upload cancelled. Finishing current chunk uploads..." c)
      else
        let part := nth_error (parts (startResponse c)) (i c) in
        let c :=
          setStatus ("Uploading chunk " +++ string_of_nat (i c + 1) +++ "/" +++
                     string_of_nat (List.length (chunks c)) +++ "...") c in
        uploadChunkToS3_call chunk part 0 c
  end.

(** [uploadChunkToS3] from the point where its [fetch] settles, and the
    rest of the loop body when it returns. *)
Definition put_settled (retryCount : nat) (r : Settled unit) (c : Config) : Config :=
  match nth_error (chunks c) (i c), nth_error (parts (startResponse c)) (i c) with
  | Some chunk, Some part =>
      match put_attempt part r with
      | inr etag =>
          let c := setCompleteParts
                     (completeParts c ++ [mkCompletePart etag (part_number part)]) c in
          let c := setProgress
                     (10 + inject_Z (Z.of_nat (i c + 1)) * uploadProgressStep c)%Q c in
          for_loop (setI (i c + 1) c)
      | inl error =>
          if Nat.ltb retryCount MAX_RETRIES then
            uploadChunkToS3_call chunk (Some part) (retryCount + 1) c
          else catch_ error c
      end
  | _, _ => c
  end.

(** [handleUpload] from the point where [startUpload] settles. *)
Definition start_settled (r : Settled StartUploadResponse) (c : Config) : Config :=
  match startUpload_settle r with
  | inl error => catch_ error c
  | inr response =>
      let c := setStartResponse response c in
      let c := setVideoUid (Some (video response)) c in
      let c := setStatus ("Received " +++ string_of_nat (List.length (parts response)) +++
                          " presigned URLs") c in
      let c := setProgress 10%Q c in
      if cancelledRef c then finally_ c
      else for_loop (setI 0 (setCompleteParts [] c))
  end.

(** [handleUpload] up to [await startUpload(...)].  [uploadId] is the
    token [startUpload] builds from the clock and the random generator. *)
Definition handleUpload (uploadId : string) (c : Config) : Config :=
  match file c with
  | None => setError "Please select a file" c
  | Some f =>
      let c := setUploading true c in
      let c := setError EmptyString c in
      let c := setStatus "Preparing upload..." c in
      let c := setProgress 0%Q c in
      let c := setCancelled false c in
      let c := setCancelledRef false c in
      let c := setVideoUid None c in
      let c := setChunks (chunkFile f) c in
      let totalParts := List.length (chunks c) in
      let c := setStatus ("Chunking file into " +++ string_of_nat totalParts +++
                          " parts...") c in
      let c := setProgress 5%Q c in
      setPc AwaitStart
            (emit (Fetch (startUpload_request uploadId (name f) totalParts (type f))) c)
  end.

(** [handleCancel]; [cancelUpload] is started and not awaited. *)
Definition handleCancel (c : Config) : Config :=
  if falsy (videoUid c) || negb (uploading c) then c
  else
    let c := setCancelled true c in
    let c := setCancelledRef true c in
    let c := setStatus "Cancelling upload..." c in
    match videoUid c with
    | Some uid => setPendingCancels (S (pendingCancels c)) (emit (Fetch (PostCancel uid)) c)
    | None => c
    end.

(** [cancelUpload] from the point where its [fetch] settles. *)
Definition cancel_settled (r : Settled unit) (c : Config) : Config :=
  match cancelUpload_settle r with
  | Some error => emit (ConsoleError "Error canceling upload:" error) c
  | None => c
  end.

Definition handleFileChange (selectedFile : File) (c : Config) : Config :=
  setProgress 0%Q (setStatus EmptyString (setError EmptyString (setFile (Some selectedFile) c))).

(** What reaches the page from outside. *)
Inductive Input :=
| SelectFile (f : File)
| ClickUpload (uploadId : string)
| ClickCancel
| StartSettled (r : Settled StartUploadResponse)
| PutSettled (r : Settled unit)
| CompleteSettled (r : Settled unit)
| StatusSettled (r : Settled UploadStatus)
| CancelSettled (r : Settled unit)
| TimerFired.

Definition has_file (c : Config) : bool :=
  match file c with Some _ => true | None => false end.

(** One turn of the event loop.  The file input is disabled while
    [uploading]; the Upload button is disabled when there is no file or
    while [uploading]; the Cancel button is rendered only while
    [uploading].  A settled request or a timer reaches the continuation
    that waits for it, and nothing else. *)
Definition step (c : Config) (ev : Input) : Config :=
  match ev with
  | SelectFile f => if uploading c then c else handleFileChange f c
  | ClickUpload uploadId =>
      if has_file c && negb (uploading c) then handleUpload uploadId c else c
  | ClickCancel => if uploading c then handleCancel c else c
  | StartSettled r =>
      match pc c with AwaitStart => start_settled r c | _ => c end
  | PutSettled r =>
      match pc c with AwaitPut retryCount => put_settled retryCount r c | _ => c end
  | CompleteSettled r =>
      match pc c with AwaitComplete => complete_settled r c | _ => c end
  | StatusSettled r =>
      match pc c with AwaitStatus => poll_settled r c | _ => c end
  | CancelSettled r =>
      match pendingCancels c with
      | S n => cancel_settled r (setPendingCancels n c)
      | O => c
      end
  | TimerFired =>
      match pc c with AwaitTimer => poll c | _ => c end
  end.

Definition run (c : Config) (evs : list Input) : Config := fold_left step evs c.

Definition reachable (c : Config) : Prop := exists evs, c = run init evs.

(** The terminal states of the upload, read off the page once
    [handleUpload] has returned. *)
Inductive Terminal := Succeeded | Failed | Cancelled.

Definition terminal_state (c : Config) : option Terminal :=
  if uploading c then None
  else if cancelledRef c then Some Cancelled
  else if String.eqb (status c) "Upload failed" then Some Failed
  else if String.eqb (status c) "Upload completed successfully!" then Some Succeeded
  else None.

End Page.

(* ===================================================================== *)
(** ** Vocabulary of the statements *)
(* ===================================================================== *)

Module Props.
Import Text Chunker Sorting Transport Page.

(** An attempt fails when the [try] block of [uploadChunkToS3] throws. *)
Definition fails (part : PresignedPutPart) (reply : Settled unit) : Prop :=
  exists e, put_attempt part reply = inl e.

(** The message of [e] contains the part number of [part]. *)
Definition references_part (e : Exn) (part : PresignedPutPart) : bool :=
  match e with
  | Error message => mentions (string_of_Z (part_number part)) message
  | Thrown _ => false
  end.

(** The order the comparator of the page sorts by. *)
Definition by_number (a b : CompletePart) : Prop := PartNumber a <= PartNumber b.

(** Part numbers that increase by steps of one from [first]. *)
Fixpoint consecutive_from (first : Z) (l : list Z) : Prop :=
  match l with
  | [] => True
  | x :: l' => x = first /\ consecutive_from (first + 1) l'
  end.

(** The inputs that belong to the running session: everything but a new
    choice of file and a new click on Upload. *)
Definition session_input (ev : Input) : Prop :=
  match ev with
  | SelectFile _ | ClickUpload _ => False
  | _ => True
  end.

(** What holds while a PUT is in flight: chunk [i] and destination [i]
    exist, and the entries collected so far carry the part numbers of the
    destinations before [i], in that order. *)
Definition put_in_flight (c : Config) : Prop :=
  (exists chunk, nth_error (chunks c) (i c) = Some chunk) /\
  (exists part, nth_error (parts (startResponse c)) (i c) = Some part) /\
  map PartNumber (completeParts c) =
  map part_number (firstn (i c) (parts (startResponse c))).

(** The invariant of the page. *)
Record Inv (c : Config) : Prop := mkInv {
  inv_idle : pc c = Idle <-> uploading c = false;
  inv_chunks : uploading c = true ->
               exists f, file c = Some f /\ chunks c = chunkFile f;
  inv_start : pc c = AwaitStart -> cancelledRef c = false /\ videoUid c = None;
  inv_video : pc c <> Idle -> pc c <> AwaitStart ->
              videoUid c = Some (video (startResponse c));
  inv_put : forall retryCount, pc c = AwaitPut retryCount -> put_in_flight c
}.

(** The effects that may still follow a cancellation signalled while
    chunk [i c] is in flight: retries of that same PUT, further cancel
    notifications, and the log line of a failed notification. *)
Definition drain_effect (c : Config) (e : Effect) : Prop :=
  match e with
  | Fetch (PutChunk to body) =>
      nth_error (chunks c) (i c) = Some body /\
      exists part, nth_error (parts (startResponse c)) (i c) = Some part /\ to = url part
  | Fetch (PostCancel _) => True
  | ConsoleError label _ => label = "Error canceling upload:"
  | _ => False
  end.

(** The effects a step, or a run, adds to the trace. *)
Definition emitted (c : Config) (ev : Input) : list Effect :=
  skipn (List.length (trace c)) (trace (step c ev)).

Definition emitted_run (c : Config) (evs : list Input) : list Effect :=
  skipn (List.length (trace c)) (trace (run c evs)).

(** Inputs other than the reply to the start request. *)
Definition not_start_reply (ev : Input) : Prop :=
  match ev with
  | StartSettled _ => False
  | _ => True
  end.

(** The only effect possible before the start response: the log line of
    a cancel notification left over from an earlier upload. *)
Definition leftover_log (e : Effect) : Prop :=
  match e with
  | ConsoleError label _ => label = "Error canceling upload:"
  | _ => False
  end.

(** An effect by which a failure of the upload is reported. *)
Definition reports_failure (e : Effect) : Prop :=
  match e with
  | ConsoleError label _ => label = "Upload error:"
  | _ => False
  end.

(** A reply to a PUT from which [uploadChunkToS3] returns [etag]. *)
Definition succeeds (reply : Settled unit) (etag : string) : Prop :=
  forall part, put_attempt part reply = inr etag.

(** The request that carries [chunk] to [part], and the entry recorded for
    it. *)
Definition put_of (pair : PresignedPutPart * Blob) : Effect :=
  Fetch (PutChunk (url (fst pair)) (snd pair)).

Definition entry_of (pair : string * PresignedPutPart) : CompletePart :=
  mkCompletePart (fst pair) (part_number (snd pair)).

(** [c'] is a state of the session of [c] after a cancellation
    signalled while chunk [i c] was in flight: that chunk is still in
    flight, or [handleUpload] has returned. *)
Definition draining (c c' : Config) : Prop :=
  cancelledRef c' = true /\
  chunks c' = chunks c /\
  startResponse c' = startResponse c /\
  ((pc c' = Idle /\ uploading c' = false) \/
   (exists retryCount, pc c' = AwaitPut retryCount) /\
   i c' = i c /\ uploading c' = true).

End Props.

(* ===================================================================== *)
(** ** Concrete files, replies and sessions *)
(* ===================================================================== *)

Module Scenarios.
Import Text Chunker Sorting Transport Page Props.

(** The file of the end-to-end scenario: 12 MB, three chunks. *)
Definition video12 : File := mkFile "video.mp4" "video/mp4" (12 * 1024 * 1024).

(** One byte more than a chunk: two chunks. *)
Definition clip : File := mkFile "clip.mp4" "video/mp4" (5 * 1024 * 1024 + 1).

(** One chunk. *)
Definition note : File := mkFile "note.txt" "text/plain" 3.

Definition empty_file : File := mkFile "empty.bin" EmptyString 0.

Definition quoted (s : string) : string :=
  String dquote (s +++ String dquote EmptyString).

(** A successful response with a body of the declared type. *)
Definition ok_with {J} (body : J) : Settled J :=
  Fulfilled (mkResponse true 200 "OK" [] EmptyString (inr body)).

(** A successful PUT whose ETag header is the quoted [etag]. *)
Definition put_ok (etag : string) : Settled unit :=
  Fulfilled (mkResponse true 200 "OK" [("etag", quoted etag)] EmptyString (inr tt)).

(** A successful PUT without an ETag header. *)
Definition put_no_etag : Settled unit :=
  Fulfilled (mkResponse true 200 "OK" [("content-length", "0")] EmptyString (inr tt)).

Definition put_forbidden : Settled unit :=
  Fulfilled (mkResponse false 403 "Forbidden" [] "denied" (inr tt)).

(** What [fetch] rejects with when the network is down. *)
Definition network_down {J} : Settled J := Rejected (Error "Failed to fetch").

Definition part7 : PresignedPutPart := mkPart 7 "https://store.example/p7".

Definition start3 : StartUploadResponse :=
  mkStart [mkPart 1 "https://store.example/p1";
           mkPart 2 "https://store.example/p2";
           mkPart 3 "https://store.example/p3"] "vid".

(** Two destinations that carry the same part number. *)
Definition start_twice_1 : StartUploadResponse :=
  mkStart [mkPart 1 "https://store.example/a";
           mkPart 1 "https://store.example/b"] "vid".

(** Two destinations listed in descending order. *)
Definition start_swapped : StartUploadResponse :=
  mkStart [mkPart 2 "https://store.example/p2";
           mkPart 1 "https://store.example/p1"] "vid".

Definition start1 : StartUploadResponse :=
  mkStart [mkPart 1 "https://store.example/p1"] "vid".

Definition processing : Settled UploadStatus := ok_with (mkStatus "processing" "vid").
Definition completed : Settled UploadStatus := ok_with (mkStatus "completed" "vid").

(** Choose a file, click Upload, and receive the start response. *)
Definition started (f : File) (response : StartUploadResponse) : list Input :=
  [SelectFile f; ClickUpload "upload-1"; StartSettled (ok_with response)].

(** The end-to-end scenario of the specification. *)
Definition end_to_end : list Input :=
  started video12 start3 ++
  [PutSettled (put_ok "t1"); PutSettled (put_ok "t2"); PutSettled (put_ok "t3");
   CompleteSettled (ok_with tt); TimerFired; StatusSettled processing;
   TimerFired; StatusSettled completed].

(** The upload of [clip] to two destinations numbered 1 and 1. *)
Definition twice_1 : list Input :=
  started clip start_twice_1 ++
  [PutSettled (put_ok "t1"); PutSettled (put_ok "t2");
   CompleteSettled (ok_with tt); TimerFired; StatusSettled completed].

(** The upload of [note] up to its first status request, with a click on
    Cancel while that request is in flight. *)
Definition cancel_while_polling : list Input :=
  started note start1 ++
  [PutSettled (put_ok "t1"); CompleteSettled (ok_with tt); TimerFired; ClickCancel].

(** What the completion request of [twice_1] carries. *)
Definition twice_1_parts : list CompletePart :=
  [mkCompletePart "t1" 1; mkCompletePart "t2" 1].

(** [video12] with its first PUT in flight, and with the first two PUTs
    done and the third in flight. *)
Definition first_put_in_flight : Config := run init (started video12 start3).

Definition third_put_in_flight : Config :=
  run init (started video12 start3 ++
            [PutSettled (put_ok "t1"); PutSettled (put_ok "t2")]).

(** [video12] with its first PUT in flight and the flag up. *)
Definition cancelled_in_flight : Config :=
  run init (started video12 start3 ++ [ClickCancel]).

(** [note] chosen and Upload clicked: the start request is in flight. *)
Definition start_in_flight : Config :=
  run init [SelectFile note; ClickUpload "upload-1"].

(** [note] uploaded and completed, with the first status request in
    flight. *)
Definition status_in_flight : Config :=
  run init (started note start1 ++
            [PutSettled (put_ok "t1"); CompleteSettled (ok_with tt); TimerFired]).

(** [clip] chosen, nothing started. *)
Definition clip_chosen : Config := run init [SelectFile clip].

Definition empty_chosen : Config := run init [SelectFile empty_file].

End Scenarios.

(* ===================================================================== *)
(** ** Further vocabulary *)
(* ===================================================================== *)

Module MoreProps.
Import Text Chunker Sorting Transport Page Props Scenarios.

(** The number of bytes of a chunk, and of a list of chunks. *)
Definition blob_size (b : Blob) : Z := blob_end b - blob_start b.

Fixpoint total_size (l : list Blob) : Z :=
  match l with
  | [] => 0
  | b :: l' => blob_size b + total_size l'
  end.

(** [s] does not begin, or does not end, with a quote character. *)
Definition starts_unquoted (s : string) : Prop :=
  match s with
  | String c _ => is_quote c = false
  | EmptyString => True
  end.

Definition ends_unquoted (s : string) : Prop :=
  match last_char s with
  | Some c => is_quote c = false
  | None => True
  end.

(** A token as [uploadChunkToS3] returns it: not empty, and with no white
    space at either end. *)
Definition clean_token (s : string) : Prop :=
  truthy s = true /\
  match s with String c _ => is_space c = false | EmptyString => True end /\
  match last_char s with Some c => is_space c = false | None => True end.

(** What a status reply says. *)
Definition still_processing (reply : Settled UploadStatus) : Prop :=
  exists statusData,
    checkStatus_settle reply = inr statusData /\
    String.eqb (status_of statusData) "completed" = false.

Definition says_completed (reply : Settled UploadStatus) : Prop :=
  exists statusData,
    checkStatus_settle reply = inr statusData /\
    String.eqb (status_of statusData) "completed" = true.

(** One round of the poller: its timer fires, then its request settles. *)
Definition poll_round (reply : Settled UploadStatus) : list Input :=
  [TimerFired; StatusSettled reply].

(** A request about an upload names the video [vid]. *)
Definition carries_video (vid : string) (e : Effect) : Prop :=
  match e with
  | Fetch (PostCancel v) | Fetch (GetStatus v) | Fetch (PostComplete v _) => v = vid
  | _ => True
  end.



(** *** Further concrete sessions *)

(** A response that is not ok. *)
Definition server_error {J} : Settled J :=
  Fulfilled (mkResponse false 500 "Internal Server Error" [] "boom"
                        (inl (Error "Unexpected token b in JSON"))).

(** [note] with its completion request in flight, and with the first
    timer of the poller pending. *)
Definition complete_in_flight : Config :=
  run init (started note start1 ++ [PutSettled (put_ok "t1")]).

Definition timer_pending : Config :=
  run init (started note start1 ++
            [PutSettled (put_ok "t1"); CompleteSettled (ok_with tt)]).

(** [clip], which has two chunks, with a start response that brings one
    destination only. *)
Definition one_destination_short : Config := run init (started clip start1).

(** [video12] with the second attempt of its first PUT in flight. *)
Definition second_attempt_in_flight : Config :=
  run init (started video12 start3 ++ [PutSettled network_down]).

(** A weak ETag without its closing quote. *)
Definition weak_etag_open : string := "W/" +++ String dquote "abc".

(** *** One request at a time *)

(** The effects [handleUpload] waits for: every request but a cancel
    notification, and every timer. *)
Definition awaited (e : Effect) : bool :=
  match e with
  | Fetch (PostCancel _) => false
  | Fetch _ => true
  | SetTimeout _ => true
  | ConsoleError _ _ => false
  end.

(** The effect on which [handleUpload] is suspended at [p]. *)
Definition waits_for (p : Pc) (e : Effect) : Prop :=
  match p, e with
  | AwaitStart, Fetch (PostStart _ _ _ _) => True
  | AwaitPut _, Fetch (PutChunk _ _) => True
  | AwaitComplete, Fetch (PostComplete _ _) => True
  | AwaitTimer, SetTimeout _ => True
  | AwaitStatus, Fetch (GetStatus _) => True
  | _, _ => False
  end.

(** The input that resumes [handleUpload] at [p]; at [Idle], the click
    that calls it. *)
Definition resumes (p : Pc) (ev : Input) : Prop :=
  match p, ev with
  | Idle, ClickUpload _ => True
  | AwaitStart, StartSettled _ => True
  | AwaitPut _, PutSettled _ => True
  | AwaitComplete, CompleteSettled _ => True
  | AwaitTimer, TimerFired => True
  | AwaitStatus, StatusSettled _ => True
  | _, _ => False
  end.

(** *** The outcome of a cancel request *)

Definition is_cancel_log (e : Effect) : bool :=
  match e with
  | ConsoleError label _ => String.eqb label "Error canceling upload:"
  | _ => false
  end.

Definition is_cancel_settled (ev : Input) : bool :=
  match ev with
  | CancelSettled _ => true
  | _ => false
  end.

(** The page without what the outcomes of cancel requests leave behind:
    the log lines of [cancelUpload] and the count of its pending calls. *)
Definition without_cancel_outcomes (c : Config) : Config :=
  setPendingCancels 0
    (setTrace (filter (fun e => negb (is_cancel_log e)) (trace c)) c).

(** *** One upload after another *)

(** The state the page renders, with the flag and the position of
    [handleUpload]. *)
Definition shown (c : Config) :=
  (file c, uploading c, progress c, status c, error c, videoUid c,
   cancelled c, cancelledRef c, pc c).

(** Two pages that show the same and whose uploads, as far as they have
    come, hold the same chunks, start response, index and entries. *)
Definition same_upload (c1 c2 : Config) : Prop :=
  shown c1 = shown c2 /\
  (pc c1 = Idle \/
   (chunks c1 = chunks c2 /\
    (pc c1 = AwaitStart \/
     (startResponse c1 = startResponse c2 /\ i c1 = i c2 /\
      completeParts c1 = completeParts c2)))).

(** A page on which an earlier upload of [clip] has failed. *)
Definition after_failed_upload : Config :=
  run init [SelectFile clip; ClickUpload "upload-0"; StartSettled network_down].

End MoreProps.

(* ===================================================================== *)
(** ** Facts about the chunker *)
(* ===================================================================== *)

Module ChunkerFacts.
Import Text Chunker.


Lemma ceil_div_0 C : 1 <= C -> ceil_div 0 C = 0.
Proof. intros H. unfold ceil_div. apply Z.div_small. lia. Qed.

Lemma ceil_div_small C a : 1 <= C -> 0 < a <= C -> ceil_div a C = 1.
Proof.
  intros HC Ha. unfold ceil_div.
  symmetry. apply (Z.div_unique_pos _ _ _ (a - 1)); lia.
Qed.

Lemma ceil_div_sub C a : 1 <= C -> ceil_div (a - C) C = ceil_div a C - 1.
Proof.
  intros HC. unfold ceil_div.
  replace (a - C + C - 1) with (a + C - 1 + (-1) * C) by lia.
  rewrite Z.div_add by lia. lia.
Qed.

Lemma ceil_div_bounds C a :
  1 <= C -> 1 <= a -> C * (ceil_div a C - 1) < a <= C * ceil_div a C.
Proof.
  intros HC Ha. unfold ceil_div.
  pose proof (Z.div_mod (a + C - 1) C ltac:(lia)) as E.
  pose proof (Z.mod_pos_bound (a + C - 1) C ltac:(lia)) as B.
  nia.
Qed.

Lemma ceil_div_pos C a : 1 <= C -> 1 <= a -> 1 <= ceil_div a C.
Proof. intros HC Ha. pose proof (ceil_div_bounds C a HC Ha). nia. Qed.

Lemma chunkLoop_done fuel C file start acc :
  size file <= start -> chunkLoop fuel C file start acc = Some acc.
Proof.
  intros H. destruct fuel; simpl; destruct (Z.ltb_spec start (size file)); auto; lia.
Qed.

Lemma slice_exact file s e :
  0 <= s -> s <= e -> e <= size file -> slice file s e = mkBlob s e.
Proof.
  intros H0 H1 H2. unfold slice.
  destruct (Z.ltb_spec s 0); [lia|]. destruct (Z.ltb_spec e 0); [lia|].
  f_equal; lia.
Qed.

Lemma chunkLoop_from C file :
  1 <= C ->
  forall fuel k acc,
    Z.of_nat k * C <= size file ->
    (Z.to_nat (ceil_div (size file - Z.of_nat k * C) C) <= fuel)%nat ->
    chunkLoop fuel C file (Z.of_nat k * C) acc =
    Some (acc ++ map (range C (size file))
                     (seq k (Z.to_nat (ceil_div (size file - Z.of_nat k * C) C)))).
Proof.
  intros HC. induction fuel as [|fuel IH]; intros k acc Hk Hfuel.
  - destruct (Z.eq_dec (Z.of_nat k * C) (size file)) as [E|NE].
    + rewrite chunkLoop_done by lia.
      replace (size file - Z.of_nat k * C) with 0 by lia.
      rewrite ceil_div_0 by lia. simpl. now rewrite app_nil_r.
    + pose proof (ceil_div_pos C (size file - Z.of_nat k * C) HC ltac:(lia)). lia.
  - destruct (Z.eq_dec (Z.of_nat k * C) (size file)) as [E|NE].
    + rewrite chunkLoop_done by lia.
      replace (size file - Z.of_nat k * C) with 0 by lia.
      rewrite ceil_div_0 by lia. simpl. now rewrite app_nil_r.
    + cbn [chunkLoop].
      destruct (Z.ltb_spec (Z.of_nat k * C) (size file)) as [Hlt|]; [|lia].
      rewrite slice_exact by lia.
      destruct (Z_lt_le_dec (Z.of_nat k * C + C) (size file)) as [Hin|Hout].
      * rewrite Z.min_l by lia.
        replace (Z.of_nat k * C + C) with (Z.of_nat (S k) * C) by lia.
        pose proof (ceil_div_sub C (size file - Z.of_nat k * C) HC) as Hs.
        replace (size file - Z.of_nat k * C - C) with (size file - Z.of_nat (S k) * C) in Hs by lia.
        pose proof (ceil_div_pos C (size file - Z.of_nat k * C) HC ltac:(lia)) as Hp.
        rewrite IH by lia.
        replace (Z.to_nat (ceil_div (size file - Z.of_nat k * C) C))
          with (S (Z.to_nat (ceil_div (size file - Z.of_nat (S k) * C) C))) by lia.
        cbn [seq map]. rewrite <- app_assoc. cbn [app].
        do 3 f_equal. unfold range.
        rewrite Z.min_l by lia. f_equal. lia.
      * rewrite Z.min_r by lia.
        rewrite chunkLoop_done by lia.
        rewrite ceil_div_small by lia.
        change (Z.to_nat 1) with 1%nat. cbn [seq map].
        do 3 f_equal. unfold range.
        rewrite Z.min_r by lia. reflexivity.
Qed.

Lemma ceil_div_nonneg C a : 1 <= C -> 0 <= a -> 0 <= ceil_div a C.
Proof. intros HC Ha. unfold ceil_div. apply Z.div_pos; lia. Qed.

Lemma iterations_enough C file :
  1 <= C -> 0 <= size file ->
  (Z.to_nat (ceil_div (size file) C) <= iterations C file)%nat.
Proof.
  intros HC Hs. unfold iterations, ceil_div.
  assert ((size file + C - 1) / C <= size file / C + 1).
  { rewrite <- (Z.div_add (size file) 1 C) by lia.
    apply Z.div_le_mono; lia. }
  pose proof (Z.div_pos (size file) C Hs ltac:(lia)). lia.
Qed.

(** With enough fuel the loop returns, and what it returns is the list of
    the ranges of the specification. *)
Lemma chunkLoop_enough_fuel C file fuel :
  1 <= C -> 0 <= size file ->
  (Z.to_nat (ceil_div (size file) C) <= fuel)%nat ->
  chunkLoop fuel C file 0 [] =
  Some (map (range C (size file)) (seq 0 (Z.to_nat (ceil_div (size file) C)))).
Proof.
  intros HC Hs Hf.
  pose proof (chunkLoop_from C file HC fuel 0 []) as H.
  change (Z.of_nat 0 * C) with 0 in H. rewrite Z.sub_0_r in H.
  apply H; lia.
Qed.

Lemma chunkFileWith_ranges C file :
  1 <= C -> 0 <= size file ->
  chunkFileWith C file =
  map (range C (size file)) (seq 0 (Z.to_nat (ceil_div (size file) C))).
Proof.
  intros HC Hs. unfold chunkFileWith.
  rewrite chunkLoop_enough_fuel; auto using iterations_enough.
Qed.

(** The page's own chunker, with its 5 MB constant. *)
Lemma chunkFile_ranges file :
  0 <= size file ->
  chunkFile file =
  map (range CHUNK_SIZE (size file))
      (seq 0 (Z.to_nat (ceil_div (size file) CHUNK_SIZE))).
Proof. intros Hs. apply chunkFileWith_ranges; [unfold CHUNK_SIZE; lia | exact Hs]. Qed.

Lemma chunkFile_empty file : size file = 0 -> chunkFile file = [].
Proof. intros H. rewrite chunkFile_ranges by lia. rewrite H. reflexivity. Qed.

Lemma nth_error_lt {A} (l : list A) i x : nth_error l i = Some x -> (i < List.length l)%nat.
Proof. intros H. apply nth_error_Some. congruence. Qed.

Lemma nth_error_ranges C sz n i :
  (i < n)%nat -> nth_error (map (range C sz) (seq 0 n)) i = Some (range C sz i).
Proof.
  intros H. rewrite nth_error_map, nth_error_seq.
  destruct (Nat.ltb_spec i n); [reflexivity | lia].
Qed.

(** C2. For a chunk size [C >= 1] and a source of [size] bytes the chunker
    returns (with any fuel of at least [ceil (size / C)] iterations)
    exactly [ceil (size / C)] chunks; chunk [i], counting from 0, is the
    byte range from [i * C] to [min ((i + 1) * C) size]; every chunk is
    non-empty, the first starts at 0, each next one starts where the one
    before ends, and the last ends at [size]; a source of size 0 gives no
    chunk. *)
Theorem chunker_covers_source (C : Z) (file : File) :
  1 <= C -> 0 <= size file ->
  let n := Z.to_nat (ceil_div (size file) C) in
  let chunks := chunkFileWith C file in
  (forall fuel, (n <= fuel)%nat -> chunkLoop fuel C file 0 [] = Some chunks) /\
  Z.of_nat (List.length chunks) = ceil_div (size file) C /\
  (1 <= size file -> C * (ceil_div (size file) C - 1) < size file <= C * ceil_div (size file) C) /\
  (forall i, (i < n)%nat ->
     nth_error chunks i =
     Some (mkBlob (Z.of_nat i * C) (Z.min ((Z.of_nat i + 1) * C) (size file)))) /\
  (forall i b, nth_error chunks i = Some b ->
     0 <= blob_start b < blob_end b /\ blob_end b <= size file /\
     (i = 0%nat -> blob_start b = 0) /\
     (S i = n -> blob_end b = size file) /\
     (forall b', nth_error chunks (S i) = Some b' -> blob_start b' = blob_end b)) /\
  (size file = 0 -> chunks = []).
Proof.
  intros HC Hs n chunks.
  assert (E : chunks = map (range C (size file)) (seq 0 n))
    by (apply chunkFileWith_ranges; assumption).
  clearbody chunks.
  assert (Hn : Z.of_nat n = ceil_div (size file) C).
  { subst n. rewrite Z2Nat.id; auto using ceil_div_nonneg. }
  assert (Hlen : List.length chunks = n).
  { rewrite E, length_map, length_seq. reflexivity. }
  assert (Hpos : (0 < n)%nat -> 1 <= size file).
  { intros Hp. destruct (Z.eq_dec (size file) 0) as [Z0|]; [|lia].
    rewrite Z0, ceil_div_0 in Hn by lia. lia. }
  split; [|split; [|split; [|split; [|split]]]].
  - intros fuel Hf. rewrite E. apply chunkLoop_enough_fuel; assumption.
  - rewrite Hlen. exact Hn.
  - apply ceil_div_bounds; assumption.
  - intros i Hi. rewrite E. apply nth_error_ranges, Hi.
  - intros i b Hb.
    assert (Hi : (i < n)%nat) by (rewrite <- Hlen; eapply nth_error_lt; eauto).
    pose proof (ceil_div_bounds C (size file) HC (Hpos ltac:(lia))) as B.
    rewrite E, nth_error_ranges in Hb by lia. injection Hb as <-.
    cbn [blob_start blob_end range].
    split; [nia|]. split; [lia|]. split; [intros ->; lia|]. split; [intros Hl; nia|].
    intros b' Hb'.
    assert (Hi' : (S i < n)%nat) by (rewrite <- Hlen; eapply nth_error_lt; eauto).
    rewrite E, nth_error_ranges in Hb' by lia. injection Hb' as <-.
    cbn [blob_start blob_end range]. nia.
  - intros Z0. rewrite E. subst n. rewrite Z0, ceil_div_0 by lia. reflexivity.
Qed.

End ChunkerFacts.

(* ===================================================================== *)
(** ** Facts about the sort *)
(* ===================================================================== *)

Module SortingFacts.
Import Sorting Props.

Lemma insert_perm p l : Permutation (insert p l) (p :: l).
Proof.
  induction l as [|q l IH]; cbn [insert].
  - reflexivity.
  - destruct (compareParts p q <=? 0).
    + reflexivity.
    + rewrite IH. apply perm_swap.
Qed.

Lemma sort_perm l : Permutation (sort l) l.
Proof.
  induction l as [|p l IH]; cbn [sort].
  - reflexivity.
  - rewrite insert_perm. now constructor.
Qed.

Lemma sort_length l : List.length (sort l) = List.length l.
Proof. apply Permutation_length, sort_perm. Qed.

Lemma insert_sorted p l :
  StronglySorted by_number l -> StronglySorted by_number (insert p l).
Proof.
  induction 1 as [|q l Hs IH Hq]; cbn [insert].
  - repeat constructor.
  - unfold compareParts. destruct (Z.leb_spec (PartNumber p - PartNumber q) 0) as [Hle|Hgt].
    + constructor; [now constructor|].
      constructor; [unfold by_number; lia|].
      eapply Forall_impl; [|exact Hq]. unfold by_number. intros; lia.
    + constructor; [exact IH|].
      rewrite insert_perm. constructor; [unfold by_number; lia | exact Hq].
Qed.

Lemma sort_sorted l : StronglySorted by_number (sort l).
Proof.
  induction l as [|p l IH]; cbn [sort]; [constructor | now apply insert_sorted].
Qed.

Lemma StronglySorted_map {A B} (f : A -> B) (R : B -> B -> Prop) l :
  StronglySorted (fun a b => R (f a) (f b)) l -> StronglySorted R (map f l).
Proof.
  induction 1 as [|a l Hs IH Ha]; cbn [map]; constructor; auto.
  rewrite Forall_map. exact Ha.
Qed.

Lemma sort_numbers_sorted l : StronglySorted Z.le (map PartNumber (sort l)).
Proof. apply StronglySorted_map, sort_sorted. Qed.

Lemma sort_numbers_perm l :
  Permutation (map PartNumber (sort l)) (map PartNumber l).
Proof. apply Permutation_map, sort_perm. Qed.

(** A list that is already in order is left as it is. *)
Lemma insert_head p l :
  Forall (by_number p) l -> insert p l = p :: l.
Proof.
  destruct 1 as [|q l Hq _]; cbn [insert]; [reflexivity|].
  unfold compareParts, by_number in *.
  destruct (Z.leb_spec (PartNumber p - PartNumber q) 0); [reflexivity | lia].
Qed.

Lemma sort_sorted_id l : StronglySorted by_number l -> sort l = l.
Proof.
  induction 1 as [|p l Hs IH Hp]; cbn [sort]; [reflexivity|].
  rewrite IH. now apply insert_head.
Qed.

(** Two ascending lists with the same elements are equal. *)
Lemma sorted_perm_unique (l1 l2 : list Z) :
  StronglySorted Z.le l1 -> StronglySorted Z.le l2 -> Permutation l1 l2 -> l1 = l2.
Proof.
  intros H1. revert l2. induction H1 as [|a l1 Hs1 IH Ha]; intros l2 H2 HP.
  - apply Permutation_nil in HP. now subst.
  - destruct H2 as [|b l2 Hs2 Hb].
    + apply Permutation_sym, Permutation_nil in HP. discriminate.
    + assert (a = b).
      { assert (Hin1 : In a (b :: l2)) by (eapply Permutation_in; [exact HP | now left]).
        assert (Hin2 : In b (a :: l1))
          by (eapply Permutation_in; [apply Permutation_sym; exact HP | now left]).
        rewrite Forall_forall in Ha, Hb.
        destruct Hin1 as [->|Hin1]; [reflexivity|].
        destruct Hin2 as [->|Hin2]; [reflexivity|].
        specialize (Ha _ Hin2). specialize (Hb _ Hin1). lia. }
      subst b. f_equal. apply IH; [exact Hs2|].
      eapply Permutation_cons_inv. exact HP.
Qed.

Lemma one_to_sorted_from k n : StronglySorted Z.le (map Z.of_nat (seq k n)).
Proof.
  revert k. induction n as [|n IH]; intros k; cbn [seq map]; constructor; [apply IH|].
  rewrite Forall_map, Forall_forall. intros x Hx. apply in_seq in Hx. lia.
Qed.

Lemma one_to_sorted n : StronglySorted Z.le (one_to n).
Proof. apply one_to_sorted_from. Qed.

Lemma consecutive_seq k n : consecutive_from (Z.of_nat k) (map Z.of_nat (seq k n)).
Proof.
  revert k. induction n as [|n IH]; intros k; cbn [seq map consecutive_from]; [exact I|].
  split; [reflexivity|].
  replace (Z.of_nat k + 1) with (Z.of_nat (S k)) by lia. apply IH.
Qed.

Lemma one_to_consecutive n : consecutive_from 1 (one_to n).
Proof. apply (consecutive_seq 1). Qed.

(** Consecutive numbers are strictly ascending, hence without duplicates. *)
Lemma consecutive_lower first l :
  consecutive_from first l -> Forall (fun x => first <= x) l.
Proof.
  revert first. induction l as [|x l IH]; intros first H; constructor.
  - destruct H as [-> _]. lia.
  - destruct H as [_ H]. apply IH in H. eapply Forall_impl; [|exact H].
    cbn. intros; lia.
Qed.

Lemma consecutive_strict first l :
  consecutive_from first l -> StronglySorted Z.lt l.
Proof.
  revert first. induction l as [|x l IH]; intros first H; constructor.
  - destruct H as [_ H]. eapply IH, H.
  - destruct H as [-> H]. apply consecutive_lower in H.
    eapply Forall_impl; [|exact H]. cbn. intros; lia.
Qed.

Lemma strict_NoDup l : StronglySorted Z.lt l -> NoDup l.
Proof.
  induction 1 as [|a l Hs IH Ha]; constructor; [|exact IH].
  intros Hin. rewrite Forall_forall in Ha. specialize (Ha _ Hin). lia.
Qed.

(** Sorting entries whose part numbers are a rearrangement of [1..n]
    gives the part numbers [1; 2; ...; n]. *)
Lemma sort_of_rearrangement l n :
  Permutation (map PartNumber l) (one_to n) ->
  map PartNumber (sort l) = one_to n.
Proof.
  intros HP. apply sorted_perm_unique.
  - apply sort_numbers_sorted.
  - apply one_to_sorted.
  - rewrite sort_numbers_perm. exact HP.
Qed.

End SortingFacts.

(* ===================================================================== *)
(** ** Facts about strings and about one part upload *)
(* ===================================================================== *)

Module TransportFacts.
Import Text Chunker Sorting Transport Props.

Lemma append_nil_r s : s +++ EmptyString = s.
Proof. induction s as [|c s IH]; cbn; [reflexivity | now rewrite IH]. Qed.

Lemma append_assoc (a b c : string) : (a +++ b) +++ c = a +++ b +++ c.
Proof. induction a as [|x a IH]; cbn; [reflexivity | now rewrite IH]. Qed.

Lemma prefix_append p s : String.prefix p (p +++ s) = true.
Proof.
  induction p as [|c p IH]; cbn.
  - now destruct s.
  - destruct (ascii_dec c c); [exact IH | congruence].
Qed.

Lemma mentions_prefix p s : String.prefix p s = true -> mentions p s = true.
Proof. intros H. destruct s; cbn [mentions]; rewrite H; reflexivity. Qed.

Lemma mentions_here p s : mentions p (p +++ s) = true.
Proof. apply mentions_prefix, prefix_append. Qed.

Lemma mentions_append p a s : mentions p s = true -> mentions p (a +++ s) = true.
Proof.
  intros H. induction a as [|c a IH]; cbn [String.append]; [exact H|].
  cbn [mentions]. rewrite IH. apply orb_true_r.
Qed.

Lemma mentions_middle p a b : mentions p (a +++ p +++ b) = true.
Proof. apply mentions_append, mentions_here. Qed.

(** The trailing quote of the pattern. *)
Lemma strip_trailing_quote_snoc s q :
  is_quote q = true -> strip_trailing_quote (s +++ String q EmptyString) = s.
Proof.
  intros Hq. induction s as [|c s IH]; cbn [String.append strip_trailing_quote].
  - now rewrite Hq.
  - destruct (s +++ String q EmptyString) eqn:E.
    + destruct s; discriminate.
    + now rewrite IH.
Qed.

Lemma replace_quotes_quoted q1 q2 s :
  is_quote q1 = true -> is_quote q2 = true ->
  replace_quotes (String q1 (s +++ String q2 EmptyString)) = s.
Proof.
  intros H1 H2. unfold replace_quotes. cbn [strip_leading_quote].
  rewrite H1. now apply strip_trailing_quote_snoc.
Qed.

(** What [trim] returns neither starts nor ends with white space. *)
Lemma trimStart_head s :
  match trimStart s with String c _ => is_space c = false | EmptyString => True end.
Proof.
  induction s as [|c s IH]; cbn [trimStart]; [exact I|].
  destruct (is_space c) eqn:E; [exact IH | exact E].
Qed.

Lemma trimEnd_head s :
  match s with String c _ => is_space c = false | EmptyString => True end ->
  match trimEnd s with String c _ => is_space c = false | EmptyString => True end.
Proof.
  destruct s as [|c s]; cbn [trimEnd]; [auto|].
  intros Hc. destruct (trimEnd s); [rewrite Hc|]; exact Hc.
Qed.

Lemma trimEnd_last s :
  match last_char (trimEnd s) with Some c => is_space c = false | None => True end.
Proof.
  induction s as [|c s IH]; cbn [trimEnd]; [exact I|].
  destruct (trimEnd s) as [|d t] eqn:E.
  - destruct (is_space c) eqn:Ec; cbn; auto.
  - cbn [last_char] in *. exact IH.
Qed.

Lemma trim_clean s :
  match trim s with String c _ => is_space c = false | EmptyString => True end /\
  match last_char (trim s) with Some c => is_space c = false | None => True end.
Proof. split; [apply trimEnd_head, trimStart_head | apply trimEnd_last]. Qed.

(** [Headers.get] does not depend on the case of the three spellings. *)
Lemma headers_get_spellings hs :
  headers_get "etag" hs = headers_get "ETag" hs /\
  headers_get "Etag" hs = headers_get "ETag" hs.
Proof.
  induction hs as [|[k v] hs [IH1 IH2]]; [split; reflexivity|].
  cbn [headers_get].
  change (lowercase "etag") with "etag". change (lowercase "ETag") with "etag".
  change (lowercase "Etag") with "etag".
  destruct (String.eqb k "etag"); split; auto.
Qed.

Lemma etag_header_get hs :
  etag_header hs =
  match headers_get "ETag" hs with Some v => v | None => EmptyString end.
Proof.
  unfold etag_header. destruct (headers_get_spellings hs) as [-> ->].
  destruct (headers_get "ETag" hs) as [v|]; cbn; [|reflexivity].
  destruct v; reflexivity.
Qed.

Lemma put_attempt_token part (r : Response unit) :
  ok r = true ->
  put_attempt part (Fulfilled r) =
  if truthy (normalize_etag (etag_header (headers r)))
  then inr (normalize_etag (etag_header (headers r)))
  else inl (Error (etag_missing_message part r)).
Proof.
  intros Hok. unfold put_attempt. rewrite Hok. cbn [negb].
  destruct (truthy (normalize_etag (etag_header (headers r)))); reflexivity.
Qed.

(** C6. The integrity token of a successful PUT is the ETag header (under
    any of the three spellings the page asks for) with one leading and one
    trailing quote character removed and then trimmed: the header value
    of the specification, abc123 between double quotes, gives abc123; a
    quoted value gives its trimmed inside; the token has no white space at
    either end.  When the header is absent or empty, or nothing is left of
    it, the attempt throws although the response was a success. *)
Theorem etag_token_extraction (part : PresignedPutPart) (r : Response unit) :
  ok r = true ->
  normalize_etag (String dquote ("abc123" +++ String dquote EmptyString)) = "abc123" /\
  (forall q1 q2 s, is_quote q1 = true -> is_quote q2 = true ->
     normalize_etag (String q1 (s +++ String q2 EmptyString)) = trim s) /\
  (forall s,
     match normalize_etag s with String c _ => is_space c = false | EmptyString => True end /\
     match last_char (normalize_etag s) with Some c => is_space c = false | None => True end) /\
  (headers_get "ETag" (headers r) = None \/ headers_get "ETag" (headers r) = Some EmptyString ->
     put_attempt part (Fulfilled r) = inl (Error (etag_missing_message part r))) /\
  (forall v, headers_get "ETag" (headers r) = Some v ->
     put_attempt part (Fulfilled r) =
     if truthy (normalize_etag v) then inr (normalize_etag v)
     else inl (Error (etag_missing_message part r))).
Proof.
  intros Hok. split; [reflexivity|]. split; [|split; [|split]].
  - intros q1 q2 s H1 H2. unfold normalize_etag.
    now rewrite replace_quotes_quoted.
  - intros s. apply trim_clean.
  - intros H. rewrite put_attempt_token, etag_header_get by exact Hok.
    destruct H as [-> | ->]; reflexivity.
  - intros v H. rewrite put_attempt_token, etag_header_get, H by exact Hok.
    reflexivity.
Qed.

(** The request of every attempt is the same. *)
Lemma upload_sent_same replies chunk part retryCount :
  Forall (eq (PutChunk (url part) chunk))
         (sent (uploadChunkToS3 replies chunk part retryCount)).
Proof.
  revert retryCount. induction replies as [|reply replies IH]; intros retryCount;
    cbn [uploadChunkToS3].
  - repeat constructor.
  - destruct (put_attempt part reply); [|repeat constructor].
    destruct (Nat.ltb retryCount MAX_RETRIES); cbn [sent]; repeat constructor.
    apply IH.
Qed.

Lemma upload_retries part chunk failures :
  forall retryCount winner etag rest,
    Forall (fails part) failures ->
    put_attempt part winner = inr etag ->
    (retryCount + List.length failures <= MAX_RETRIES)%nat ->
    uploadChunkToS3 (failures ++ winner :: rest) chunk part retryCount =
    mkUpload (Some (inr etag))
             (repeat (PutChunk (url part) chunk) (List.length failures + 1)).
Proof.
  induction failures as [|reply failures IH]; intros retryCount winner etag rest HF Hw Hn.
  - cbn [app uploadChunkToS3]. rewrite Hw. reflexivity.
  - apply Forall_cons_iff in HF as [[e He] HF].
    cbn [app uploadChunkToS3 List.length] in *. rewrite He.
    destruct (Nat.ltb_spec retryCount MAX_RETRIES) as [_|Hge]; [|lia].
    rewrite (IH (retryCount + 1)%nat winner etag rest HF Hw) by lia.
    reflexivity.
Qed.

Lemma upload_exhausted part chunk failures :
  forall retryCount final e rest,
    Forall (fails part) failures ->
    put_attempt part final = inl e ->
    (retryCount + List.length failures = MAX_RETRIES)%nat ->
    uploadChunkToS3 (failures ++ final :: rest) chunk part retryCount =
    mkUpload (Some (inl e))
             (repeat (PutChunk (url part) chunk) (List.length failures + 1)).
Proof.
  induction failures as [|reply failures IH]; intros retryCount final e rest HF Hl Hn.
  - cbn [app uploadChunkToS3 List.length] in *. rewrite Hl.
    destruct (Nat.ltb_spec retryCount MAX_RETRIES) as [Hlt|_]; [lia|]. reflexivity.
  - apply Forall_cons_iff in HF as [[e' He'] HF].
    cbn [app uploadChunkToS3 List.length] in *. rewrite He'.
    destruct (Nat.ltb_spec retryCount MAX_RETRIES) as [_|Hge]; [|lia].
    rewrite (IH (retryCount + 1)%nat final e rest HF Hl) by lia.
    reflexivity.
Qed.

(** While replies are missing the call is still waiting. *)
Lemma upload_pending part chunk failures :
  forall retryCount,
    Forall (fails part) failures ->
    (retryCount + List.length failures <= MAX_RETRIES)%nat ->
    outcome (uploadChunkToS3 failures chunk part retryCount) = None.
Proof.
  induction failures as [|reply failures IH]; intros retryCount HF Hn; [reflexivity|].
  apply Forall_cons_iff in HF as [[e He] HF].
  cbn [uploadChunkToS3 List.length] in *. rewrite He.
  destruct (Nat.ltb_spec retryCount MAX_RETRIES) as [_|Hge]; [|lia].
  cbn [outcome]. apply IH; [exact HF | lia].
Qed.

(** The errors the [try] block builds itself name the part. *)
Lemma put_attempt_error_names_part part (r : Response unit) e :
  put_attempt part (Fulfilled r) = inl e -> references_part e part = true.
Proof.
  unfold put_attempt.
  destruct (negb (ok r)).
  - intros [= <-]. cbn [references_part]. unfold upload_failed_message.
    apply (mentions_middle _ "Failed to upload chunk ").
  - destruct (negb (truthy (normalize_etag (etag_header (headers r))))); [|discriminate].
    intros [= <-]. cbn [references_part]. unfold etag_missing_message.
    apply (mentions_middle _ "Failed to extract ETag from chunk ").
Qed.

(** C3, as the code has it.  When the first [N] attempts fail, with
    [N < MAX_RETRIES], and the next one succeeds, the call returns the token
    of that attempt after exactly [N + 1] requests.  When [MAX_RETRIES + 1]
    attempts fail, exactly that many requests are made, all to the same
    destination with the same chunk, and the call throws what the last
    attempt threw: a rejection of [fetch] as it came, without a part
    number added, and otherwise an error whose message names the part. *)
Theorem part_upload_retry (part : PresignedPutPart) (chunk : Blob)
        (failures : list (Settled unit)) (final : Settled unit)
        (rest : list (Settled unit)) :
  Forall (fails part) failures ->
  let call := uploadChunkToS3 (failures ++ final :: rest) chunk part 0 in
  let request := PutChunk (url part) chunk in
  (forall etag,
     put_attempt part final = inr etag ->
     (List.length failures < MAX_RETRIES)%nat ->
     call = mkUpload (Some (inr etag)) (repeat request (List.length failures + 1))) /\
  (forall e,
     put_attempt part final = inl e ->
     List.length failures = MAX_RETRIES ->
     call = mkUpload (Some (inl e)) (repeat request (MAX_RETRIES + 1)) /\
     match final with
     | Rejected thrown => e = thrown
     | Fulfilled _ => references_part e part = true
     end).
Proof.
  intros HF call request. split.
  - intros etag Hw Hn. apply upload_retries; [exact HF | exact Hw | lia].
  - intros e He Hn. split.
    + rewrite <- Hn. apply upload_exhausted; [exact HF | exact He | lia].
    + destruct final as [thrown|r].
      * cbn in He. congruence.
      * eapply put_attempt_error_names_part, He.
Qed.

End TransportFacts.

(* ===================================================================== *)
(** ** Facts about the page *)
(* ===================================================================== *)

Module PageFacts.
Import Text Chunker Sorting Transport Page Props.
Import SortingFacts TransportFacts ChunkerFacts.

(** Reduce the projections of updated configurations, and nothing else. *)
Ltac norm :=
  cbn [file uploading progress status error videoUid cancelled cancelledRef
       pc chunks startResponse i completeParts trace pendingCancels
       setFile setUploading setProgress setStatus setError setVideoUid
       setCancelled setCancelledRef setPc setChunks setStartResponse setI
       setCompleteParts setTrace setPendingCancels emit finally_ negb] in *.

Ltac unfold_handlers :=
  unfold step, handleFileChange, handleUpload, handleCancel, cancel_settled,
         start_settled, put_settled, complete_settled, poll_settled, poll,
         pollStatus, for_loop, after_loop, uploadChunkToS3_call, after_poll,
         catch_ in *.

(** Split on the first test or match that the goal is stuck on. *)
Ltac break_step :=
  match goal with
  | |- context [if ?b then _ else _] =>
      lazymatch b with
      | context [if _ then _ else _] => fail
      | context [match _ with _ => _ end] => fail
      | _ => destruct b eqn:?
      end
  | |- context [match ?x with _ => _ end] =>
      lazymatch x with
      | context [if _ then _ else _] => fail
      | context [match _ with _ => _ end] => fail
      | _ => destruct x eqn:?
      end
  end.

Ltac cases := unfold_handlers; norm; repeat (break_step; norm).

Lemma init_inv : Inv init.
Proof.
  constructor; cbn; try tauto; try discriminate.
Qed.

Lemma firstn_snoc {A} (l : list A) n x :
  nth_error l n = Some x -> firstn (n + 1) l = firstn n l ++ [x].
Proof.
  revert l. induction n as [|n IH]; intros [|y l] H; try discriminate.
  - cbn in *. congruence.
  - cbn [Nat.add firstn app nth_error] in *. f_equal. now apply IH.
Qed.

Ltac use_pc :=
  repeat match goal with
  | H : pc ?c = _, H' : context [pc ?c] |- _ =>
      lazymatch H' with H => fail | _ => rewrite H in H' end
  | H : pc ?c = _ |- context [pc ?c] => rewrite H
  end.

Ltac easy_inv :=
  use_pc;
  solve [ tauto | discriminate | congruence
        | intuition (try discriminate; try congruence)
        | destruct (uploading _) eqn:?; intuition (try discriminate; try congruence)
        | intros; eauto
        | match goal with
          | H : uploading ?c = true -> exists _, _ |- _ =>
              let U := fresh in
              let f0 := fresh in
              intros U; destruct (H U) as (f0 & ? & ?); exists f0; split; congruence
          end ].

(** The three ways into a state with a PUT in flight: the first chunk,
    a retry of the same chunk, and the next chunk. *)
Ltac put_inv Hput :=
  intros ? _; unfold put_in_flight in *; norm;
  first
    [ solve [repeat split; eauto]
    | solve [eapply Hput; eauto]
    | match goal with
      | Hp : nth_error (parts _) (i _) = Some _ |- _ =>
          destruct (Hput _ eq_refl) as (_ & _ & Hmap);
          repeat split; eauto;
          rewrite map_app, (firstn_snoc _ _ _ Hp), map_app, Hmap; reflexivity
      end ].

Lemma step_inv c ev : Inv c -> Inv (step c ev).
Proof.
  intros [Hidle Hchunks Hstart Hvideo Hput].
  destruct ev; cases.
  all: try (constructor; assumption).
  all: constructor; norm.
  all: try easy_inv.
  all: try (use_pc; put_inv Hput).
Qed.

Lemma run_inv c evs : Inv c -> Inv (run c evs).
Proof.
  revert c. induction evs as [|ev evs IH]; intros c H; [exact H|].
  apply IH, step_inv, H.
Qed.

Lemma reachable_inv c : reachable c -> Inv c.
Proof. intros [evs ->]. apply run_inv, init_inv. Qed.

Lemma reachable_step c ev : reachable c -> reachable (step c ev).
Proof.
  intros [evs ->]. exists (evs ++ [ev]). unfold run. now rewrite fold_left_app.
Qed.

Lemma run_app c evs evs' : run c (evs ++ evs') = run (run c evs) evs'.
Proof. apply fold_left_app. Qed.

Lemma skipn_length_app {A} (l m : list A) : skipn (List.length l) (l ++ m) = m.
Proof. induction l; [reflexivity | assumption]. Qed.

(** A step only adds to the trace, and at most one effect. *)
Lemma step_trace c ev :
  trace (step c ev) = trace c \/ exists e, trace (step c ev) = trace c ++ [e].
Proof. destruct ev; cases; eauto. Qed.

Lemma emitted_spec c ev : trace (step c ev) = trace c ++ emitted c ev.
Proof.
  unfold emitted. destruct (step_trace c ev) as [-> | [e ->]].
  - now rewrite skipn_all, app_nil_r.
  - now rewrite skipn_length_app.
Qed.

Lemma emitted_none c ev : trace (step c ev) = trace c -> emitted c ev = [].
Proof. intros H. unfold emitted. rewrite H. apply skipn_all. Qed.

Lemma emitted_one c ev e : trace (step c ev) = trace c ++ [e] -> emitted c ev = [e].
Proof. intros H. unfold emitted. rewrite H. apply skipn_length_app. Qed.

Lemma emitted_run_spec c evs : trace (run c evs) = trace c ++ emitted_run c evs.
Proof.
  unfold emitted_run. revert c. induction evs as [|ev evs IH]; intros c.
  - cbn. now rewrite skipn_all, app_nil_r.
  - cbn [run fold_left]. fold (run (step c ev) evs).
    rewrite (IH (step c ev)). rewrite emitted_spec, <- app_assoc.
    now rewrite skipn_length_app.
Qed.

Lemma emitted_run_nil c : emitted_run c [] = [].
Proof. unfold emitted_run. cbn. apply skipn_all. Qed.

Lemma emitted_run_cons c ev evs :
  emitted_run c (ev :: evs) = emitted c ev ++ emitted_run (step c ev) evs.
Proof.
  apply (app_inv_head (trace c)).
  rewrite <- emitted_run_spec. cbn [run fold_left]. fold (run (step c ev) evs).
  now rewrite emitted_run_spec, emitted_spec, app_assoc.
Qed.

Ltac cases_emitted :=
  unfold emitted; cases; rewrite ?skipn_length_app, ?skipn_all.

(** *** The Cancel button *)

Lemma handleCancel_noop c :
  falsy (videoUid c) = true \/ uploading c = false -> handleCancel c = c.
Proof.
  unfold handleCancel. intros [-> | ->]; cbn [negb orb]; rewrite ?orb_true_r; reflexivity.
Qed.

Lemma click_cancel_noop c :
  falsy (videoUid c) = true \/ uploading c = false -> step c ClickCancel = c.
Proof.
  intros H. cbn [step]. destruct (uploading c) eqn:U; [|reflexivity].
  apply handleCancel_noop. destruct H as [H | H]; [now left | discriminate].
Qed.

Lemma step_before_start c ev :
  Inv c -> pc c = AwaitStart -> not_start_reply ev ->
  Inv (step c ev) /\ pc (step c ev) = AwaitStart /\
  Forall leftover_log (emitted c ev).
Proof.
  intros HI Hpc Hev. split; [now apply step_inv|].
  destruct HI as [Hidle _ Hstart _ _].
  destruct (Hstart Hpc) as [Href Hvid].
  assert (U : uploading c = true)
    by (destruct (uploading c); [reflexivity | intuition congruence]).
  destruct ev; try contradiction; cases_emitted;
    try congruence; try discriminate;
    try (rewrite U in *; cbn [negb] in *; rewrite ?andb_false_r in *; discriminate);
    repeat constructor; try assumption.
Qed.

Lemma run_before_start c evs :
  Inv c -> pc c = AwaitStart -> Forall not_start_reply evs ->
  pc (run c evs) = AwaitStart /\ cancelledRef (run c evs) = false /\
  videoUid (run c evs) = None /\ Forall leftover_log (emitted_run c evs).
Proof.
  revert c. induction evs as [|ev evs IH]; intros c HI Hpc Hevs.
  - rewrite emitted_run_nil. cbn [run fold_left].
    destruct (inv_start c HI Hpc). auto.
  - apply Forall_cons_iff in Hevs as [Hev Hevs].
    destruct (step_before_start c ev HI Hpc Hev) as (HI' & Hpc' & Hem).
    destruct (IH (step c ev) HI' Hpc' Hevs) as (? & ? & ? & ?).
    rewrite emitted_run_cons. cbn [run fold_left].
    repeat split; auto. apply Forall_app; auto.
Qed.

(** C10. [handleCancel] changes nothing (no flag set, no request sent)
    when no upload is in progress or [videoUid] is not set.  While the page
    waits for the start response of an upload, [videoUid] is [null] and
    the flag is down, and they stay so, with no request sent, whatever
    happens before that response arrives: an upload cannot be cancelled
    before its start response. *)
Theorem cancel_needs_started_upload (c : Config) :
  (falsy (videoUid c) = true \/ uploading c = false ->
   handleCancel c = c /\ step c ClickCancel = c) /\
  (reachable c -> pc c = AwaitStart ->
   cancelledRef c = false /\ videoUid c = None /\
   forall evs, Forall not_start_reply evs ->
     pc (run c evs) = AwaitStart /\
     cancelledRef (run c evs) = false /\
     videoUid (run c evs) = None /\
     Forall leftover_log (emitted_run c evs)).
Proof.
  split.
  - intros H. split; [now apply handleCancel_noop | now apply click_cancel_noop].
  - intros Hr Hpc. pose proof (reachable_inv c Hr) as HI.
    destruct (inv_start c HI Hpc) as [Href Hvid].
    repeat split; auto; now apply run_before_start.
Qed.

(** *** Failures after a cancellation *)

Lemma step_after_cancel c ev :
  cancelledRef c = true -> session_input ev ->
  cancelledRef (step c ev) = true /\
  error (step c ev) = error c /\
  (status c <> "Upload failed" -> status (step c ev) <> "Upload failed") /\
  Forall (fun e => ~ reports_failure e) (emitted c ev).
Proof.
  intros Href Hev.
  destruct ev; try contradiction; cases_emitted;
    try congruence; try (rewrite Href in *; discriminate);
    repeat split; auto; try congruence; try discriminate;
    try (intros _ H; cbn in H; discriminate H);
    repeat constructor; cbn; try discriminate; auto.
Qed.

Lemma run_after_cancel c evs :
  cancelledRef c = true -> status c <> "Upload failed" ->
  Forall session_input evs ->
  cancelledRef (run c evs) = true /\
  error (run c evs) = error c /\
  status (run c evs) <> "Upload failed" /\
  Forall (fun e => ~ reports_failure e) (emitted_run c evs).
Proof.
  revert c. induction evs as [|ev evs IH]; intros c Href Hst Hevs.
  - rewrite emitted_run_nil. cbn [run fold_left]. auto.
  - apply Forall_cons_iff in Hevs as [Hev Hevs].
    destruct (step_after_cancel c ev Href Hev) as (Href' & Herr & Hst' & Hem).
    destruct (IH (step c ev) Href' (Hst' Hst) Hevs) as (R1 & R2 & R3 & R4).
    rewrite emitted_run_cons. cbn [run fold_left].
    split; [exact R1|]. split; [exact (eq_trans R2 Herr)|]. split; [exact R3|].
    apply Forall_app; auto.
Qed.

Lemma cancelled_not_failed c : cancelledRef c = true -> terminal_state c <> Some Failed.
Proof.
  intros H. unfold terminal_state. rewrite H.
  destruct (uploading c); discriminate.
Qed.

(** The failure status is never shown while the flag is up. *)
Lemma step_cancelled_status c ev :
  (cancelledRef c = true -> status c <> "Upload failed") ->
  cancelledRef (step c ev) = true -> status (step c ev) <> "Upload failed".
Proof.
  intros H.
  destruct ev; cases; intros Href; try discriminate Href; try congruence;
    try (now apply H); try discriminate;
    try (intros E; cbn in E; discriminate E);
    try (rewrite Href in *; discriminate).
Qed.

Lemma reachable_cancelled_status c :
  reachable c -> cancelledRef c = true -> status c <> "Upload failed".
Proof.
  intros [evs ->]. unfold run.
  induction evs as [|ev evs IH] using rev_ind; [discriminate|].
  rewrite fold_left_app. cbn [fold_left]. now apply step_cancelled_status.
Qed.

(** C7. Once the cancellation flag is up, nothing that happens in the
    session reports a failure: whatever then settles or fires, and however
    it fails, [error] keeps its value, the status never becomes the
    failure status, no upload error is logged, and the session does not end
    in the failed state. *)
Theorem failure_after_cancel_suppressed (c : Config) (evs : list Input) :
  reachable c ->
  cancelledRef c = true ->
  Forall session_input evs ->
  error (run c evs) = error c /\
  status (run c evs) <> "Upload failed" /\
  Forall (fun e => ~ reports_failure e) (emitted_run c evs) /\
  cancelledRef (run c evs) = true /\
  terminal_state (run c evs) <> Some Failed.
Proof.
  intros Hr Href Hevs.
  pose proof (reachable_cancelled_status c Hr Href) as Hst.
  destruct (run_after_cancel c evs Href Hst Hevs) as (H1 & H2 & H3 & H4).
  repeat split; auto. now apply cancelled_not_failed.
Qed.

(** *** The status poller *)

Lemma terminal_after_poll c :
  terminal_state (after_poll c) =
  Some (if cancelledRef c then Cancelled else Succeeded).
Proof.
  unfold after_poll, terminal_state. norm.
  destruct (cancelledRef c) eqn:E; cbn [negb]; norm; rewrite E; reflexivity.
Qed.

Lemma terminal_catch c e :
  cancelledRef c = false -> terminal_state (catch_ e c) = Some Failed.
Proof.
  intros E. unfold catch_, terminal_state. norm. rewrite E. cbn [negb]. norm.
  rewrite E. reflexivity.
Qed.

Lemma timer_fires c :
  pc c = AwaitTimer ->
  if cancelledRef c then
    emitted c TimerFired = [] /\ pc (step c TimerFired) = Idle /\
    error (step c TimerFired) = error c /\
    terminal_state (step c TimerFired) = Some Cancelled
  else
    emitted c TimerFired = [Fetch (GetStatus (video (startResponse c)))] /\
    pc (step c TimerFired) = AwaitStatus.
Proof.
  intros Hpc. cases_emitted; try congruence; try discriminate.
  - repeat split; auto. unfold terminal_state. norm. rewrite Heqb. reflexivity.
  - auto.
Qed.

Lemma status_settles c r :
  pc c = AwaitStatus ->
  let c' := step c (StatusSettled r) in
  match checkStatus_settle r with
  | inr statusData =>
      if String.eqb (status_of statusData) "completed" then
        emitted c (StatusSettled r) = [] /\ pc c' = Idle /\ progress c' = 100%Q /\
        error c' = error c /\
        terminal_state c' = Some (if cancelledRef c then Cancelled else Succeeded)
      else if cancelledRef c then
        emitted c (StatusSettled r) = [] /\ pc c' = Idle /\
        error c' = error c /\ terminal_state c' = Some Cancelled /\
        progress c' = progress c
      else
        emitted c (StatusSettled r) = [SetTimeout 5000] /\ pc c' = AwaitTimer /\
        error c' = error c /\ uploading c' = uploading c /\
        progress c' = progress c
  | inl e =>
      if cancelledRef c then
        emitted c (StatusSettled r) = [] /\ pc c' = Idle /\
        error c' = error c /\ terminal_state c' = Some Cancelled /\
        progress c' = progress c
      else
        emitted c (StatusSettled r) = [ConsoleError "Upload error:" e] /\
        pc c' = Idle /\ error c' = errorMessage e /\
        terminal_state c' = Some Failed /\
        progress c' = progress c
  end.
Proof.
  intros Hpc c'. subst c'. unfold emitted. cbn [step]. rewrite Hpc.
  unfold poll_settled.
  destruct (checkStatus_settle r) as [e|statusData].
  - destruct (cancelledRef c) eqn:E.
    + rewrite terminal_after_poll, E. unfold after_poll. norm. rewrite E. cbn [negb].
      norm. rewrite skipn_all. auto.
    + rewrite terminal_catch by exact E. unfold catch_. norm. rewrite E. cbn [negb].
      norm. rewrite skipn_length_app. auto.
  - norm. destruct (String.eqb (status_of statusData) "completed").
    + rewrite terminal_after_poll. norm. unfold after_poll. norm.
      destruct (cancelledRef c) eqn:E; cbn [negb]; norm; rewrite skipn_all; auto.
    + destruct (cancelledRef c) eqn:E.
      * rewrite terminal_after_poll. norm. rewrite E. unfold after_poll. norm.
        rewrite E. cbn [negb]. norm. rewrite skipn_all. auto.
      * norm. rewrite skipn_length_app. auto.
Qed.

Lemma complete_then_delay c done :
  pc c = AwaitComplete -> completeUpload_settle done = inr tt ->
  emitted c (CompleteSettled done) = [SetTimeout 3000] /\
  pc (step c (CompleteSettled done)) = AwaitTimer.
Proof.
  intros Hpc Hok. unfold emitted. cbn [step]. rewrite Hpc.
  unfold complete_settled. rewrite Hok. unfold pollStatus. norm.
  rewrite skipn_length_app. auto.
Qed.

(** C8, as the code has it.  The poller starts with a timer of 3000 ms.
    Each time its timer fires it looks at the flag first: when the flag is
    up it resolves as cancelled without a request, otherwise it asks for
    the status.  When that request settles: a response with status
    completed resolves the poller and sets the progress to 100, which no
    other outcome does; any other status sets a timer of 5000 ms for the
    next poll, unless the flag went up while the request was in flight, in
    which case the poller resolves as cancelled at once and sets no timer;
    a failed request ends the upload as failed exactly when the flag is
    down, and resolves as cancelled otherwise. *)
Theorem status_poller_contract (c : Config) (done : Settled unit)
        (reply : Settled UploadStatus) :
  uploading c = true ->
  (pc c = AwaitComplete -> completeUpload_settle done = inr tt ->
   emitted c (CompleteSettled done) = [SetTimeout 3000] /\
   pc (step c (CompleteSettled done)) = AwaitTimer) /\
  (pc c = AwaitTimer ->
   if cancelledRef c then
     emitted c TimerFired = [] /\ pc (step c TimerFired) = Idle /\
     error (step c TimerFired) = error c /\
     terminal_state (step c TimerFired) = Some Cancelled
   else
     emitted c TimerFired = [Fetch (GetStatus (video (startResponse c)))] /\
     pc (step c TimerFired) = AwaitStatus) /\
  (pc c = AwaitStatus ->
   let c' := step c (StatusSettled reply) in
   match checkStatus_settle reply with
   | inr statusData =>
       if String.eqb (status_of statusData) "completed" then
         emitted c (StatusSettled reply) = [] /\ pc c' = Idle /\
         progress c' = 100%Q /\ error c' = error c /\
         terminal_state c' = Some (if cancelledRef c then Cancelled else Succeeded)
       else if cancelledRef c then
         emitted c (StatusSettled reply) = [] /\ pc c' = Idle /\
         error c' = error c /\ terminal_state c' = Some Cancelled /\
         progress c' = progress c
       else
         emitted c (StatusSettled reply) = [SetTimeout 5000] /\ pc c' = AwaitTimer /\
         error c' = error c /\ uploading c' = uploading c /\
         progress c' = progress c
   | inl e =>
       if cancelledRef c then
         emitted c (StatusSettled reply) = [] /\ pc c' = Idle /\
         error c' = error c /\ terminal_state c' = Some Cancelled /\
         progress c' = progress c
       else
         emitted c (StatusSettled reply) = [ConsoleError "Upload error:" e] /\
         pc c' = Idle /\ error c' = errorMessage e /\
         terminal_state c' = Some Failed /\
         progress c' = progress c
   end) /\
  (pc c = AwaitStatus ->
   let c' := step c (StatusSettled reply) in
   (terminal_state c' = Some Failed <->
    (exists e, checkStatus_settle reply = inl e) /\ cancelledRef c = false) /\
   (terminal_state c' = Some Succeeded <->
    (exists statusData, checkStatus_settle reply = inr statusData /\
                        status_of statusData = "completed") /\
    cancelledRef c = false) /\
   (pc c' = AwaitTimer <->
    (exists statusData, checkStatus_settle reply = inr statusData /\
                        status_of statusData <> "completed") /\
    cancelledRef c = false)).
Proof.
  intros U. split; [apply complete_then_delay|]. split; [apply timer_fires|].
  split; [apply status_settles|].
  intros Hpc c'. pose proof (status_settles c reply Hpc) as H. fold c' in H.
  cbv zeta in H.
  destruct (checkStatus_settle reply) as [e|statusData].
  - destruct (cancelledRef c) eqn:E; destruct H as (_ & Hp & _ & Ht & _);
      rewrite Ht, Hp; repeat split;
      try discriminate; try (intros [[? [? ?]] ?]; discriminate);
      try (intros [? ?]; discriminate); eauto.
  - destruct (String.eqb_spec (status_of statusData) "completed") as [Ec|Ec].
    + destruct H as (_ & Hp & _ & _ & Ht). rewrite Ht, Hp.
      destruct (cancelledRef c) eqn:E; repeat split;
        try discriminate; try (intros [[? ?] ?]; discriminate);
        try (intros [? ?]; discriminate); eauto.
      intros [[sd [[= <-] Hne]] _]. contradiction.
    + destruct (cancelledRef c) eqn:E.
      * destruct H as (_ & Hp & _ & Ht & _). rewrite Ht, Hp. repeat split;
          try discriminate; try (intros [[? ?] ?]; discriminate);
          try (intros [? ?]; discriminate).
      * destruct H as (_ & Hp & _ & Hu & _).
        assert (Ht : terminal_state c' = None)
          by (unfold terminal_state; rewrite Hu, U; reflexivity).
        rewrite Ht, Hp. repeat split;
          try discriminate; try (intros [[? ?] ?]; discriminate); eauto.
        intros [[sd [[= <-] Hc]] _]. contradiction.
Qed.

(** *** The part list handed to the completion call *)

Lemma nth_error_end {A} (l : list A) n x :
  nth_error l n = Some x -> nth_error l (n + 1) = None -> List.length l = (n + 1)%nat.
Proof.
  intros H1 H2. apply nth_error_lt in H1. apply nth_error_None in H2. lia.
Qed.

Lemma firstn_length_lt {A} (l : list A) n x :
  nth_error l n = Some x -> List.length (firstn n l) = n.
Proof. intros H. apply nth_error_lt in H. rewrite length_firstn. lia. Qed.

(** What the step that sends the completion request sends. *)
Lemma complete_emitted c ev vid ps :
  Inv c ->
  In (Fetch (PostComplete vid ps)) (emitted c ev) ->
  cancelledRef c = false /\
  cancelledRef (step c ev) = false /\
  pc (step c ev) = AwaitComplete /\
  vid = video (startResponse (step c ev)) /\
  completeParts (step c ev) = ps /\
  exists collected,
    ps = sort collected /\
    List.length collected = List.length (chunks (step c ev)) /\
    map PartNumber collected =
    map part_number (firstn (List.length (chunks (step c ev)))
                            (parts (startResponse (step c ev)))).
Proof.
  intros [Hidle Hchunks Hstart Hvideo Hput].
  unfold emitted. destruct ev; cases; rewrite ?skipn_length_app, ?skipn_all;
    intros Hin; cbn [In] in Hin; try contradiction;
    destruct Hin as [Hin|[]]; try discriminate Hin;
    injection Hin as <- <-.
  all: try (destruct (Hstart eq_refl) as [Href _]).
  all: repeat split; auto; try congruence.
  - exists []. destruct (chunks c); [|discriminate]. repeat split.
  - match goal with
    | Hc : nth_error (chunks c) (i c) = Some _,
      He : nth_error (chunks c) (i c + 1) = None,
      Hp : nth_error (parts (startResponse c)) (i c) = Some _ |- _ =>
        destruct (Hput _ eq_refl) as (_ & _ & Hmap);
        pose proof (nth_error_end _ _ _ Hc He) as Hlen;
        pose proof (firstn_length_lt _ _ _ Hp) as Hfl;
        eexists; split; [reflexivity|]; split;
        [ rewrite length_app, <- (length_map PartNumber), Hmap, length_map, Hfl, Hlen;
          reflexivity
        | rewrite Hlen, (firstn_snoc _ _ _ Hp), !map_app, Hmap; reflexivity ]
    end.
  - match goal with
    | Hc : nth_error (chunks c) (i c) = Some _,
      He : nth_error (chunks c) (i c + 1) = None,
      Hp : nth_error (parts (startResponse c)) (i c) = Some _ |- _ =>
        destruct (Hput _ eq_refl) as (_ & _ & Hmap);
        pose proof (nth_error_end _ _ _ Hc He) as Hlen;
        pose proof (firstn_length_lt _ _ _ Hp) as Hfl;
        eexists; split; [reflexivity|]; split;
        [ rewrite length_app, <- (length_map PartNumber), Hmap, length_map, Hfl, Hlen;
          reflexivity
        | rewrite Hlen, (firstn_snoc _ _ _ Hp), !map_app, Hmap; reflexivity ]
    end.
Qed.

(** C1, as the code has it.  Whenever the page sends the completion
    request, the flag is down and the list it sends has one entry per chunk
    of the selected file, is in ascending order of part number, and carries
    exactly the part numbers of the first [totalParts] destinations of the
    start response.  When those are the numbers 1 to [totalParts] in some
    order, as the backend promises, the list is 1, 2, ..., [totalParts]:
    strictly ascending, without duplicates and without gaps. *)
Theorem complete_receives_sorted_parts (c : Config) (ev : Input)
        (vid : string) (ps : list CompletePart) :
  reachable c ->
  In (Fetch (PostComplete vid ps)) (emitted c ev) ->
  let c' := step c ev in
  let n := List.length (chunks c') in
  let destinations := firstn n (parts (startResponse c')) in
  cancelledRef c' = false /\
  (exists f, file c' = Some f /\ chunks c' = chunkFile f) /\
  List.length ps = n /\
  StronglySorted Z.le (map PartNumber ps) /\
  Permutation (map PartNumber ps) (map part_number destinations) /\
  (Permutation (map part_number destinations) (one_to n) ->
   map PartNumber ps = one_to n /\
   StronglySorted Z.lt (map PartNumber ps) /\
   NoDup (map PartNumber ps) /\
   consecutive_from 1 (map PartNumber ps)).
Proof.
  intros Hr Hin c' n destinations.
  pose proof (reachable_inv c Hr) as HI.
  destruct (complete_emitted c ev vid ps HI Hin)
    as (_ & Href & Hpc & _ & _ & collected & -> & Hlen & Hmap).
  fold c' in Href, Hpc, Hlen, Hmap. fold n in Hlen, Hmap. fold destinations in Hmap.
  pose proof (step_inv c ev HI) as HI'. fold c' in HI'.
  assert (U : uploading c' = true).
  { destruct (uploading c') eqn:E; [reflexivity|].
    apply (inv_idle c' HI') in E. congruence. }
  split; [exact Href|]. split; [exact (inv_chunks c' HI' U)|].
  split; [now rewrite sort_length|].
  split; [apply sort_numbers_sorted|].
  split; [rewrite sort_numbers_perm, Hmap; reflexivity|].
  intros HP.
  assert (E : map PartNumber (sort collected) = one_to n)
    by (apply sort_of_rearrangement; rewrite Hmap; exact HP).
  rewrite E. split; [reflexivity|].
  pose proof (one_to_consecutive n) as Hc.
  split; [eapply consecutive_strict, Hc|].
  split; [eapply strict_NoDup, consecutive_strict, Hc | exact Hc].
Qed.

(** *** Pairing of chunks and destinations *)

(** Every PUT the page sends carries the chunk at the current index to
    the destination at the same index. *)
Lemma put_emitted c ev to body :
  Inv c ->
  In (Fetch (PutChunk to body)) (emitted c ev) ->
  nth_error (chunks (step c ev)) (i (step c ev)) = Some body /\
  (exists retryCount, pc (step c ev) = AwaitPut retryCount) /\
  exists part,
    nth_error (parts (startResponse (step c ev))) (i (step c ev)) = Some part /\
    to = url part.
Proof.
  intros [Hidle Hchunks Hstart Hvideo Hput].
  unfold emitted. destruct ev; cases; rewrite ?skipn_length_app, ?skipn_all;
    intros Hin; cbn [In] in Hin; try contradiction;
    destruct Hin as [Hin|[]]; try discriminate Hin;
    injection Hin as <- <-; eauto 6.
Qed.

(** The token of a PUT that succeeds is recorded under the part number of
    the destination at the current index. *)
Lemma put_recorded c retryCount reply part etag :
  pc c = AwaitPut retryCount ->
  (exists chunk, nth_error (chunks c) (i c) = Some chunk) ->
  nth_error (parts (startResponse c)) (i c) = Some part ->
  put_attempt part reply = inr etag ->
  let c' := step c (PutSettled reply) in
  let collected := completeParts c ++ [mkCompletePart etag (part_number part)] in
  completeParts c' = collected \/
  (completeParts c' = sort collected /\ pc c' = AwaitComplete).
Proof.
  intros Hpc [chunk Hc] Hp Hok. cbn [step]. rewrite Hpc.
  unfold put_settled. rewrite Hc, Hp, Hok. cases; auto.
Qed.

(** *** An upload that runs through *)

Lemma skipn_nth {A} (l : list A) k x :
  nth_error l k = Some x -> skipn k l = x :: skipn (S k) l.
Proof.
  revert l. induction k as [|k IH]; intros [|y l] H; try discriminate.
  - cbn in *. congruence.
  - cbn [skipn nth_error] in *. now apply IH.
Qed.

Lemma nth_error_exists {A} (l : list A) k :
  (k < List.length l)%nat -> exists x, nth_error l k = Some x.
Proof.
  intros H. destruct (nth_error l k) eqn:E; [eauto|].
  apply nth_error_None in E. lia.
Qed.

Lemma click_upload c uploadId f :
  file c = Some f -> uploading c = false ->
  let c' := step c (ClickUpload uploadId) in
  pc c' = AwaitStart /\ chunks c' = chunkFile f /\ cancelledRef c' = false /\
  uploading c' = true /\ error c' = EmptyString /\
  emitted c (ClickUpload uploadId) =
  [Fetch (startUpload_request uploadId (name f)
                              (List.length (chunkFile f)) (type f))].
Proof.
  intros Hf Hu. unfold emitted. cbn [step]. unfold has_file. rewrite Hf, Hu.
  cbn [negb andb]. unfold handleUpload. rewrite Hf. norm.
  rewrite skipn_length_app. auto 10.
Qed.

Lemma start_first_put c start response chunk part :
  pc c = AwaitStart -> cancelledRef c = false ->
  startUpload_settle start = inr response ->
  nth_error (chunks c) 0 = Some chunk ->
  nth_error (parts response) 0 = Some part ->
  let c' := step c (StartSettled start) in
  pc c' = AwaitPut 0 /\ i c' = 0%nat /\ completeParts c' = [] /\
  chunks c' = chunks c /\ startResponse c' = response /\
  cancelledRef c' = false /\
  emitted c (StartSettled start) = [put_of (part, chunk)].
Proof.
  intros Hpc Href Hs Hc Hp. unfold emitted. cbn [step]. rewrite Hpc.
  unfold start_settled. rewrite Hs. norm. rewrite Href.
  unfold for_loop. norm. rewrite Hc, Href, Hp.
  unfold uploadChunkToS3_call. norm. rewrite skipn_length_app. auto 10.
Qed.

Lemma put_next c retryCount reply etag chunk part chunk' part' :
  pc c = AwaitPut retryCount -> cancelledRef c = false ->
  nth_error (chunks c) (i c) = Some chunk ->
  nth_error (parts (startResponse c)) (i c) = Some part ->
  put_attempt part reply = inr etag ->
  nth_error (chunks c) (i c + 1) = Some chunk' ->
  nth_error (parts (startResponse c)) (i c + 1) = Some part' ->
  let c' := step c (PutSettled reply) in
  pc c' = AwaitPut 0 /\ i c' = (i c + 1)%nat /\
  completeParts c' = completeParts c ++ [entry_of (etag, part)] /\
  chunks c' = chunks c /\ startResponse c' = startResponse c /\
  cancelledRef c' = false /\
  emitted c (PutSettled reply) = [put_of (part', chunk')].
Proof.
  intros Hpc Href Hc Hp Hok Hc' Hp'. unfold emitted. cbn [step]. rewrite Hpc.
  unfold put_settled. rewrite Hc, Hp, Hok.
  unfold for_loop. norm. rewrite Hc', Href, Hp'.
  unfold uploadChunkToS3_call. norm. rewrite skipn_length_app. auto 10.
Qed.

Lemma put_last c retryCount reply etag chunk part :
  pc c = AwaitPut retryCount -> cancelledRef c = false ->
  nth_error (chunks c) (i c) = Some chunk ->
  nth_error (parts (startResponse c)) (i c) = Some part ->
  put_attempt part reply = inr etag ->
  nth_error (chunks c) (i c + 1) = None ->
  let c' := step c (PutSettled reply) in
  let sorted := sort (completeParts c ++ [entry_of (etag, part)]) in
  pc c' = AwaitComplete /\ completeParts c' = sorted /\
  chunks c' = chunks c /\ startResponse c' = startResponse c /\
  cancelledRef c' = false /\
  emitted c (PutSettled reply) =
  [Fetch (PostComplete (video (startResponse c)) sorted)].
Proof.
  intros Hpc Href Hc Hp Hok Hc'. unfold emitted. cbn [step]. rewrite Hpc.
  unfold put_settled. rewrite Hc, Hp, Hok.
  unfold for_loop. norm. rewrite Hc'.
  unfold after_loop. norm. rewrite Href. norm.
  rewrite skipn_length_app. auto 10.
Qed.

(** From a PUT in flight, replies that all succeed carry the upload to
    the completion request. *)
Lemma run_puts replies etags :
  Forall2 succeeds replies etags ->
  forall c retryCount,
    Inv c -> pc c = AwaitPut retryCount -> cancelledRef c = false ->
    (i c + List.length replies = List.length (chunks c))%nat ->
    (List.length (chunks c) <= List.length (parts (startResponse c)))%nat ->
    let evs := map PutSettled replies in
    let collected :=
      completeParts c ++
      map entry_of (combine etags (skipn (i c) (parts (startResponse c)))) in
    pc (run c evs) = AwaitComplete /\
    completeParts (run c evs) = sort collected /\
    chunks (run c evs) = chunks c /\
    startResponse (run c evs) = startResponse c /\
    cancelledRef (run c evs) = false /\
    emitted_run c evs =
    map put_of (combine (skipn (i c + 1) (parts (startResponse c)))
                        (skipn (i c + 1) (chunks c))) ++
    [Fetch (PostComplete (video (startResponse c)) (sort collected))].
Proof.
  induction 1 as [|reply etag replies etags Hok HF IH];
    intros c retryCount HI Hpc Href Hlen Hparts.
  - destruct (inv_put c HI _ Hpc) as ([chunk Hc] & _).
    apply nth_error_lt in Hc. cbn [List.length] in Hlen. lia.
  - destruct (inv_put c HI _ Hpc) as ([chunk Hc] & [part Hp] & _).
    cbn [List.length] in Hlen. cbn [map]. cbv zeta.
    rewrite emitted_run_cons. cbn [run fold_left]. fold (run (step c (PutSettled reply)) (map PutSettled replies)).
    rewrite (skipn_nth _ _ _ Hp). cbn [combine map]. fold (entry_of (etag, part)).
    destruct replies as [|reply' replies].
    + inversion HF; subst.
      assert (Hend : nth_error (chunks c) (i c + 1) = None)
        by (apply nth_error_None; cbn [List.length] in Hlen; lia).
      destruct (put_last c retryCount reply etag chunk part Hpc Href Hc Hp (Hok part) Hend)
        as (H1 & H2 & H3 & H4 & H5 & H6).
      cbn [map run fold_left combine]. rewrite emitted_run_nil, app_nil_r, H6.
      assert (Hs : skipn (i c + 1) (chunks c) = [])
        by (apply skipn_all2; cbn [List.length] in Hlen; lia).
      rewrite Hs, combine_nil. cbn [map app]. auto 10.
    + cbn [List.length] in Hlen.
      destruct (nth_error_exists (chunks c) (i c + 1) ltac:(lia)) as [chunk' Hc'].
      destruct (nth_error_exists (parts (startResponse c)) (i c + 1) ltac:(lia))
        as [part' Hp'].
      destruct (put_next c retryCount reply etag chunk part chunk' part'
                         Hpc Href Hc Hp (Hok part) Hc' Hp')
        as (H1 & H2 & H3 & H4 & H5 & H6 & H7).
      pose proof (step_inv c (PutSettled reply) HI) as HI'.
      destruct (IH (step c (PutSettled reply)) 0%nat HI' H1 H6
                   ltac:(rewrite H2, H4; cbn [List.length]; lia)
                   ltac:(rewrite H4, H5; exact Hparts))
        as (R1 & R2 & R3 & R4 & R5 & R6).
      cbv zeta in R2, R6. rewrite H2, H3, H4, H5 in *.
      rewrite <- app_assoc in R2, R6. cbn [app] in R2, R6.
      replace (S (i c)) with (i c + 1)%nat by lia.
      split; [exact R1|]. split; [exact R2|]. split; [congruence|].
      split; [congruence|]. split; [exact R5|].
      rewrite H7, R6.
      rewrite (skipn_nth _ _ _ Hp'), (skipn_nth _ _ _ Hc').
      replace (S (i c + 1)) with (i c + 1 + 1)%nat by lia.
      reflexivity.
Qed.

Lemma nth_error_combine {A B} (l : list A) (m : list B) k a b :
  nth_error l k = Some a -> nth_error m k = Some b ->
  nth_error (combine l m) k = Some (a, b).
Proof.
  revert l m. induction k as [|k IH]; intros [|x l] [|y m] Ha Hb; try discriminate.
  - cbn in *. congruence.
  - cbn [combine nth_error] in *. now apply IH.
Qed.

Lemma nth_error_firstn_some {A} (l : list A) n k x :
  nth_error (firstn n l) k = Some x -> nth_error l k = Some x /\ (k < n)%nat.
Proof.
  revert l k. induction n as [|n IH]; intros l k H.
  - cbn in H. destruct k; discriminate.
  - destruct l as [|y l]; [destruct k; discriminate|].
    destruct k as [|k]; cbn [firstn nth_error] in *; [split; [exact H | lia]|].
    destruct (IH _ _ H). split; [assumption | lia].
Qed.

(** A list of destinations that does not carry the numbers from [k + 1]
    on, in order, has an entry whose number is not its position. *)
Lemma misnumbered (l : list PresignedPutPart) :
  forall k,
    map part_number l <> map Z.of_nat (seq k (List.length l)) ->
    exists j part,
      nth_error l j = Some part /\ part_number part <> Z.of_nat (k + j).
Proof.
  induction l as [|p l IH]; intros k H; [now contradiction H|].
  destruct (Z.eq_dec (part_number p) (Z.of_nat k)) as [E|NE].
  - destruct (IH (S k)) as (j & part & Hj & Hn).
    + intros Heq. apply H. cbn [map List.length seq]. now rewrite E, Heq.
    + exists (S j), part. split; [exact Hj|].
      replace (k + S j)%nat with (S k + j)%nat by lia. exact Hn.
  - exists 0%nat, p. split; [reflexivity|]. now rewrite Nat.add_0_r.
Qed.

(** An upload whose start request and PUTs all succeed at the first
    attempt, with no click on Cancel: the requests it makes. *)
Lemma upload_runs_through c uploadId f start response replies etags :
  Inv c -> file c = Some f -> uploading c = false ->
  startUpload_settle start = inr response ->
  Forall2 succeeds replies etags ->
  List.length replies = List.length (chunkFile f) ->
  (1 <= List.length (chunkFile f) <= List.length (parts response))%nat ->
  let evs := ClickUpload uploadId :: StartSettled start :: map PutSettled replies in
  let sorted := sort (map entry_of (combine etags (parts response))) in
  pc (run c evs) = AwaitComplete /\
  cancelledRef (run c evs) = false /\
  completeParts (run c evs) = sorted /\
  emitted_run c evs =
  Fetch (startUpload_request uploadId (name f) (List.length (chunkFile f)) (type f))
  :: map put_of (combine (parts response) (chunkFile f))
  ++ [Fetch (PostComplete (video response) sorted)].
Proof.
  intros HI Hf Hu Hs HF Hlen [Hpos Hparts] evs sorted. subst evs.
  destruct (click_upload c uploadId f Hf Hu) as (A1 & A2 & A3 & _ & _ & A6).
  pose proof (step_inv c (ClickUpload uploadId) HI) as HI1.
  set (c1 := step c (ClickUpload uploadId)) in *.
  destruct (nth_error_exists (chunkFile f) 0 ltac:(lia)) as [chunk Hc].
  destruct (nth_error_exists (parts response) 0 ltac:(lia)) as [part Hp].
  rewrite <- A2 in Hc.
  destruct (start_first_put c1 start response chunk part A1 A3 Hs Hc Hp)
    as (B1 & B2 & B3 & B4 & B5 & B6 & B7).
  pose proof (step_inv c1 (StartSettled start) HI1) as HI2.
  set (c2 := step c1 (StartSettled start)) in *.
  destruct (run_puts replies etags HF c2 0%nat HI2 B1 B6
              ltac:(rewrite B2, B4, A2; cbn; lia)
              ltac:(rewrite B4, B5, A2; lia))
    as (R1 & R2 & R3 & R4 & R5 & R6).
  cbv zeta in R2, R6. rewrite B2, B3, B4, B5, A2 in *. cbn [Nat.add skipn app] in R2, R6.
  subst c2 c1.
  rewrite !emitted_run_cons, A6, B7, R6.
  cbn [run fold_left] in *.
  split; [exact R1|]. split; [exact R5|]. split; [exact R2|].
  cbn [app]. f_equal.
  rewrite (skipn_nth _ _ _ Hp : parts response = _) at 3.
  rewrite (skipn_nth _ _ _ Hc : chunkFile f = _) at 2.
  reflexivity.
Qed.

(** C9. Chunks and destinations are paired by position.  Every PUT the
    page sends carries the chunk at the current index [i] to the element
    [i] of [startResponse.parts], and the token it brings back is recorded
    under the part number of that element.  In an upload that runs
    through, chunk [j] goes to destination [j] and is recorded under its
    part number for every [j]; so when the part numbers of the start
    response are not 1, 2, ..., [totalParts] in this order, some chunk [j]
    is uploaded to a destination whose part number is not [j + 1]. *)
Theorem chunks_paired_by_position (c : Config) (uploadId : string) (f : File)
        (start : Settled StartUploadResponse) (response : StartUploadResponse)
        (replies : list (Settled unit)) (etags : list string) :
  reachable c -> file c = Some f -> uploading c = false ->
  startUpload_settle start = inr response ->
  Forall2 succeeds replies etags ->
  List.length replies = List.length (chunkFile f) ->
  (1 <= List.length (chunkFile f) <= List.length (parts response))%nat ->
  let n := List.length (chunkFile f) in
  let evs := ClickUpload uploadId :: StartSettled start :: map PutSettled replies in
  (forall c' ev to body,
     reachable c' -> In (Fetch (PutChunk to body)) (emitted c' ev) ->
     nth_error (chunks (step c' ev)) (i (step c' ev)) = Some body /\
     exists part,
       nth_error (parts (startResponse (step c' ev))) (i (step c' ev)) = Some part /\
       to = url part /\
       forall reply etag,
         put_attempt part reply = inr etag ->
         In (mkCompletePart etag (part_number part))
            (completeParts (step (step c' ev) (PutSettled reply)))) /\
  emitted_run c evs =
  Fetch (startUpload_request uploadId (name f) n (type f))
  :: map put_of (combine (parts response) (chunkFile f))
  ++ [Fetch (PostComplete (video response)
                          (sort (map entry_of (combine etags (parts response)))))] /\
  (forall j chunk part etag,
     nth_error (chunkFile f) j = Some chunk ->
     nth_error (parts response) j = Some part ->
     nth_error etags j = Some etag ->
     In (put_of (part, chunk)) (emitted_run c evs) /\
     In (entry_of (etag, part)) (completeParts (run c evs))) /\
  (map part_number (firstn n (parts response)) <> one_to n ->
   exists j chunk part,
     nth_error (chunkFile f) j = Some chunk /\
     nth_error (parts response) j = Some part /\
     part_number part <> Z.of_nat j + 1 /\
     In (put_of (part, chunk)) (emitted_run c evs)).
Proof.
  intros Hr Hf Hu Hs HF Hlen Hn n evs.
  pose proof (upload_runs_through c uploadId f start response replies etags
                (reachable_inv c Hr) Hf Hu Hs HF Hlen Hn) as (_ & _ & Hcp & Hem).
  fold evs in Hcp, Hem. fold n in Hem.
  assert (Hput : forall j chunk part,
             nth_error (chunkFile f) j = Some chunk ->
             nth_error (parts response) j = Some part ->
             In (put_of (part, chunk)) (emitted_run c evs)).
  { intros j chunk part Hc Hp. rewrite Hem. right. apply in_or_app. left.
    apply in_map. eapply nth_error_In, nth_error_combine; eauto. }
  split; [|split; [exact Hem | split]].
  - intros c' ev to body Hr' Hin.
    destruct (put_emitted c' ev to body (reachable_inv c' Hr') Hin)
      as (Hc & [retryCount Hpc] & part & Hp & Hto).
    split; [exact Hc|]. exists part. split; [exact Hp|]. split; [exact Hto|].
    intros reply etag Hok.
    destruct (put_recorded (step c' ev) retryCount reply part etag Hpc
                           (ex_intro _ body Hc) Hp Hok) as [E | [E _]]; rewrite E.
    + apply in_or_app. right. now left.
    + eapply Permutation_in; [apply Permutation_sym, sort_perm|].
      apply in_or_app. right. now left.
  - intros j chunk part etag Hc Hp He. split; [eauto|].
    rewrite Hcp. eapply Permutation_in; [apply Permutation_sym, sort_perm|].
    apply in_map. eapply nth_error_In, nth_error_combine; eauto.
  - intros Hne.
    destruct (misnumbered (firstn n (parts response)) 1) as (j & part & Hj & Hpn).
    { rewrite length_firstn, Nat.min_l by (subst n; lia). exact Hne. }
    apply nth_error_firstn_some in Hj as [Hj Hlt].
    destruct (nth_error_exists (chunkFile f) j Hlt) as [chunk Hc].
    exists j, chunk, part. repeat split; eauto. lia.
Qed.

(** *** Cancellation while a chunk is in flight *)

Lemma cancel_signal c retryCount :
  Inv c -> pc c = AwaitPut retryCount -> falsy (videoUid c) = false ->
  let c1 := step c ClickCancel in
  cancelledRef c1 = true /\ cancelled c1 = true /\ pc c1 = AwaitPut retryCount /\
  i c1 = i c /\ completeParts c1 = completeParts c /\
  chunks c1 = chunks c /\ startResponse c1 = startResponse c /\
  uploading c1 = true /\ error c1 = error c /\
  status c1 = "Cancelling upload..." /\
  emitted c ClickCancel = [Fetch (PostCancel (video (startResponse c)))].
Proof.
  intros HI Hpc Hv.
  assert (U : uploading c = true).
  { destruct (uploading c) eqn:E; [reflexivity|].
    apply (inv_idle c HI) in E. congruence. }
  assert (V : videoUid c = Some (video (startResponse c)))
    by (apply (inv_video c HI); congruence).
  unfold emitted. cbn [step]. rewrite U. unfold handleCancel.
  rewrite Hv, U. cbn [negb orb]. norm. rewrite V. norm.
  rewrite skipn_length_app. auto 12.
Qed.

Lemma put_finishes_after_cancel c retryCount reply part etag :
  pc c = AwaitPut retryCount -> cancelledRef c = true ->
  (exists chunk, nth_error (chunks c) (i c) = Some chunk) ->
  nth_error (parts (startResponse c)) (i c) = Some part ->
  put_attempt part reply = inr etag ->
  let c2 := step c (PutSettled reply) in
  completeParts c2 = completeParts c ++ [mkCompletePart etag (part_number part)] /\
  emitted c (PutSettled reply) = [] /\
  pc c2 = Idle /\ uploading c2 = false /\
  status c2 = "Upload cancelled" /\ error c2 = error c /\
  terminal_state c2 = Some Cancelled.
Proof.
  intros Hpc Href [chunk Hc] Hp Hok. unfold emitted, terminal_state. cbn [step].
  rewrite Hpc. unfold put_settled. rewrite Hc, Hp, Hok.
  unfold for_loop. norm.
  destruct (nth_error (chunks c) (i c + 1)); norm; rewrite ?Href;
    unfold after_loop; norm; rewrite Href; norm; rewrite skipn_all, Href; auto 10.
Qed.

Lemma cancel_settled_silent c r :
  let c' := step c (CancelSettled r) in
  error c' = error c /\ status c' = status c /\ pc c' = pc c /\
  uploading c' = uploading c /\ cancelledRef c' = cancelledRef c /\
  completeParts c' = completeParts c /\
  Forall leftover_log (emitted c (CancelSettled r)).
Proof.
  cases_emitted; repeat split; auto; repeat constructor.
Qed.

Lemma step_draining c c' ev :
  draining c c' -> session_input ev ->
  draining c (step c' ev) /\ Forall (drain_effect c) (emitted c' ev).
Proof.
  intros (Href & Hch & Hsr & Hpc) Hev. unfold draining.
  destruct Hpc as [[Hpc U] | ([retryCount Hpc] & Hi & U)].
  - destruct ev; try contradiction; cases_emitted;
      try congruence; try discriminate;
      repeat split; auto; repeat constructor.
  - destruct ev; try contradiction; cases_emitted;
      try congruence; try discriminate; try (rewrite Href in *; discriminate);
      repeat split; auto; eauto 8; repeat constructor; cbn [drain_effect];
      try congruence; eauto 8;
      try (eexists; split; [rewrite <- Hsr, <- Hi; eassumption | reflexivity]).
Qed.

Lemma run_draining c evs :
  forall c', draining c c' -> Forall session_input evs ->
  draining c (run c' evs) /\ Forall (drain_effect c) (emitted_run c' evs).
Proof.
  induction evs as [|ev evs IH]; intros c' HD Hevs.
  - rewrite emitted_run_nil. cbn [run fold_left]. auto.
  - apply Forall_cons_iff in Hevs as [Hev Hevs].
    destruct (step_draining c c' ev HD Hev) as [HD' Hem].
    destruct (IH (step c' ev) HD' Hevs) as [HD'' Hem'].
    rewrite emitted_run_cons. cbn [run fold_left].
    split; [exact HD''|]. apply Forall_app; auto.
Qed.

(** After the signal the effects of the session are confined, whatever
    the inputs: the same PUT again (a retry), cancel notifications and
    their log lines. *)
Lemma drain_effect_quiet c e :
  drain_effect c e ->
  (forall vid ps, e <> Fetch (PostComplete vid ps)) /\
  (forall to body, e = Fetch (PutChunk to body) ->
     nth_error (chunks c) (i c) = Some body /\
     exists part,
       nth_error (parts (startResponse c)) (i c) = Some part /\ to = url part) /\
  ~ reports_failure e.
Proof.
  intros H. destruct e as [request|ms|label err]; [destruct request| |];
    cbn [drain_effect reports_failure] in *; try contradiction.
  - split; [discriminate|]. split; [|tauto]. intros ? ? [= <- <-]. exact H.
  - split; [discriminate|]. split; [discriminate | tauto].
  - split; [discriminate|]. split; [discriminate|]. subst label. discriminate.
Qed.

(** C4. A click on Cancel while chunk [k] is in flight raises the flag and
    sends the cancel notification, and leaves the PUT of chunk [k] in
    flight.  When that PUT then succeeds, its token is recorded, nothing
    more is sent (no PUT of chunk [k + 1], no completion request) and
    the upload ends cancelled.  In general, whatever the session then
    receives, it sends nothing but retries of that same PUT and further
    cancel notifications, [error] keeps its value, and once
    [handleUpload] has returned the terminal state is cancelled.  A cancel
    notification that fails only leaves a line in the log. *)
Theorem cancellation_race (c : Config) (retryCount : nat) (evs : list Input) :
  reachable c -> pc c = AwaitPut retryCount -> falsy (videoUid c) = false ->
  let c1 := step c ClickCancel in
  (cancelledRef c1 = true /\ pc c1 = AwaitPut retryCount /\ i c1 = i c /\
   completeParts c1 = completeParts c /\
   emitted c ClickCancel = [Fetch (PostCancel (video (startResponse c)))]) /\
  (forall reply part etag,
     nth_error (parts (startResponse c)) (i c) = Some part ->
     put_attempt part reply = inr etag ->
     let c2 := step c1 (PutSettled reply) in
     completeParts c2 = completeParts c ++ [mkCompletePart etag (part_number part)] /\
     emitted c1 (PutSettled reply) = [] /\
     status c2 = "Upload cancelled" /\ error c2 = error c /\
     terminal_state c2 = Some Cancelled) /\
  (Forall session_input evs ->
   let c' := run c1 evs in
   Forall (drain_effect c) (emitted_run c1 evs) /\
   (forall vid ps, ~ In (Fetch (PostComplete vid ps)) (emitted_run c1 evs)) /\
   (forall to body, In (Fetch (PutChunk to body)) (emitted_run c1 evs) ->
      nth_error (chunks c) (i c) = Some body /\
      exists part,
        nth_error (parts (startResponse c)) (i c) = Some part /\ to = url part) /\
   cancelledRef c' = true /\ error c' = error c /\
   status c' <> "Upload failed" /\
   (uploading c' = false -> terminal_state c' = Some Cancelled)) /\
  (forall c' r,
     let c'' := step c' (CancelSettled r) in
     error c'' = error c' /\ status c'' = status c' /\ pc c'' = pc c' /\
     cancelledRef c'' = cancelledRef c' /\
     Forall leftover_log (emitted c' (CancelSettled r))).
Proof.
  intros Hr Hpc Hv c1. pose proof (reachable_inv c Hr) as HI.
  destruct (cancel_signal c retryCount HI Hpc Hv)
    as (S1 & _ & S3 & S4 & S5 & S6 & S7 & S8 & S9 & S10 & S11).
  fold c1 in S1, S3, S4, S5, S6, S7, S8, S9, S10.
  destruct (inv_put c HI _ Hpc) as ([chunk Hc] & _ & _).
  split; [auto 6|]. split; [|split].
  - intros reply part etag Hp Hok c2.
    destruct (put_finishes_after_cancel c1 retryCount reply part etag S3 S1)
      as (F1 & F2 & _ & _ & F5 & F6 & F7); auto.
    + exists chunk. now rewrite S6, S4.
    + now rewrite S7, S4.
    + fold c2 in F1, F5, F6, F7. rewrite F1, S5, F6, S9. auto.
  - intros Hevs c'.
    assert (HD : draining c c1).
    { unfold draining. repeat split; auto. right. eauto. }
    destruct (run_draining c evs c1 HD Hevs) as [(D1 & _ & _ & _) Hem].
    fold c' in D1.
    assert (Hst : status c1 <> "Upload failed") by (rewrite S10; discriminate).
    destruct (run_after_cancel c1 evs S1 Hst Hevs) as (_ & R2 & R3 & _).
    fold c' in R2, R3.
    rewrite Forall_forall in Hem.
    split; [now apply Forall_forall|].
    split; [intros vid ps Hin; apply Hem, drain_effect_quiet in Hin as (Hq & _); eapply Hq; eauto|].
    split; [intros to body Hin; pose proof (Hem _ Hin) as Hd;
            apply drain_effect_quiet in Hd as (_ & Hq & _); now apply Hq|].
    split; [exact D1|]. split; [congruence|]. split; [exact R3|].
    intros U. unfold terminal_state. now rewrite U, D1.
  - intros c' r. pose proof (cancel_settled_silent c' r) as H. cbv zeta in H.
    intuition.
Qed.

(** *** The page and [uploadChunkToS3] *)

Lemma put_retry_step c retryCount chunk part reply e :
  pc c = AwaitPut retryCount ->
  nth_error (chunks c) (i c) = Some chunk ->
  nth_error (parts (startResponse c)) (i c) = Some part ->
  put_attempt part reply = inl e ->
  step c (PutSettled reply) =
  if Nat.ltb retryCount MAX_RETRIES
  then setPc (AwaitPut (retryCount + 1)) (emit (Fetch (PutChunk (url part) chunk)) c)
  else catch_ e c.
Proof.
  intros Hpc Hc Hp He. cbn [step]. rewrite Hpc. unfold put_settled.
  rewrite Hc, Hp, He. reflexivity.
Qed.

(** While attempts fail and retries are left, the page sends the same
    request again and changes nothing else. *)
Lemma page_retries c chunk part failures :
  forall c' retryCount,
    pc c' = AwaitPut retryCount ->
    chunks c' = chunks c -> startResponse c' = startResponse c -> i c' = i c ->
    nth_error (chunks c) (i c) = Some chunk ->
    nth_error (parts (startResponse c)) (i c) = Some part ->
    Forall (fails part) failures ->
    (retryCount + List.length failures <= MAX_RETRIES)%nat ->
    let c'' := run c' (map PutSettled failures) in
    pc c'' = AwaitPut (retryCount + List.length failures) /\
    chunks c'' = chunks c /\ startResponse c'' = startResponse c /\ i c'' = i c /\
    completeParts c'' = completeParts c' /\ error c'' = error c' /\
    cancelledRef c'' = cancelledRef c' /\
    emitted_run c' (map PutSettled failures) =
    repeat (Fetch (PutChunk (url part) chunk)) (List.length failures).
Proof.
  induction failures as [|reply failures IH];
    intros c' retryCount Hpc Hch Hsr Hi Hc Hp HF Hn.
  - cbn [map run fold_left List.length repeat]. rewrite emitted_run_nil, Nat.add_0_r.
    auto 10.
  - apply Forall_cons_iff in HF as [[e He] HF]. cbn [List.length] in Hn.
    cbn [map List.length repeat]. rewrite emitted_run_cons.
    cbn [run fold_left]. fold (run (step c' (PutSettled reply)) (map PutSettled failures)).
    assert (Hstep : step c' (PutSettled reply) =
                    setPc (AwaitPut (retryCount + 1))
                          (emit (Fetch (PutChunk (url part) chunk)) c')).
    { rewrite (put_retry_step c' retryCount chunk part reply e Hpc); try congruence.
      destruct (Nat.ltb_spec retryCount MAX_RETRIES); [reflexivity | lia]. }
    assert (Hem : emitted c' (PutSettled reply) = [Fetch (PutChunk (url part) chunk)]).
    { apply emitted_one. rewrite Hstep. reflexivity. }
    rewrite Hem, Hstep.
    destruct (IH (setPc (AwaitPut (retryCount + 1))
                        (emit (Fetch (PutChunk (url part) chunk)) c'))
                 (retryCount + 1)%nat eq_refl Hch Hsr Hi Hc Hp HF ltac:(lia))
      as (R1 & R2 & R3 & R4 & R5 & R6 & R7 & R8).
    rewrite R1, R8.
    replace (retryCount + 1 + List.length failures)%nat
      with (retryCount + S (List.length failures))%nat by lia.
    auto 10.
Qed.

(** The page makes the attempts that [uploadChunkToS3] makes, and hands
    the error that [uploadChunkToS3] throws to the [catch] block of
    [handleUpload]. *)
Lemma page_follows_uploadChunkToS3 c chunk part failures final e :
  pc c = AwaitPut 0 ->
  nth_error (chunks c) (i c) = Some chunk ->
  nth_error (parts (startResponse c)) (i c) = Some part ->
  Forall (fails part) failures ->
  List.length failures = MAX_RETRIES ->
  put_attempt part final = inl e ->
  let call := uploadChunkToS3 (failures ++ [final]) chunk part 0 in
  outcome call = Some (inl e) /\
  map Fetch (sent call) =
  Fetch (PutChunk (url part) chunk) :: emitted_run c (map PutSettled failures) /\
  run c (map PutSettled (failures ++ [final])) =
  catch_ e (run c (map PutSettled failures)).
Proof.
  intros Hpc Hc Hp HF Hlen He call.
  destruct (page_retries c chunk part failures c 0%nat Hpc eq_refl eq_refl eq_refl
                         Hc Hp HF ltac:(lia))
    as (R1 & R2 & R3 & R4 & _ & _ & _ & R8).
  subst call. rewrite (upload_exhausted part chunk failures 0 final e []) by (auto; lia).
  cbn [outcome sent]. split; [reflexivity|]. split.
  - rewrite R8, Nat.add_comm. cbn [Nat.add repeat map]. f_equal.
    apply map_repeat.
  - rewrite map_app, run_app. cbn [map run fold_left].
    rewrite (put_retry_step _ _ chunk part final e R1); try congruence.
    cbn [Nat.add]. rewrite Hlen.
    destruct (Nat.ltb_spec MAX_RETRIES MAX_RETRIES); [lia | reflexivity].
Qed.

(** *** An empty file *)

Lemma start_without_chunks c start response :
  pc c = AwaitStart -> cancelledRef c = false -> chunks c = [] ->
  startUpload_settle start = inr response ->
  let c' := step c (StartSettled start) in
  emitted c (StartSettled start) = [Fetch (PostComplete (video response) [])] /\
  pc c' = AwaitComplete /\ error c' = error c.
Proof.
  intros Hpc Href Hch Hs. unfold emitted. cbn [step]. rewrite Hpc.
  unfold start_settled. rewrite Hs. norm. rewrite Href.
  unfold for_loop. norm. rewrite Hch. cbn [nth_error].
  unfold after_loop. norm. rewrite Href. norm.
  rewrite skipn_length_app. auto.
Qed.

(** C5, as the code has it.  A file of size 0 gives no chunk, and the
    page has no check for it: a click on Upload sends the start request
    with [total_parts] 0 and reports no error (the one input error of
    [handleUpload] is for no file at all).  When the start request then
    succeeds, no PUT is sent and the completion request carries an empty
    part list. *)
Theorem empty_file_starts_upload (c : Config) (uploadId : string) (f : File)
        (start : Settled StartUploadResponse) (response : StartUploadResponse) :
  file c = Some f -> uploading c = false -> size f = 0 ->
  let c1 := step c (ClickUpload uploadId) in
  chunkFile f = [] /\
  emitted c (ClickUpload uploadId) =
  [Fetch (PostStart uploadId (name f) "0"
                    (if truthy (type f) then Some (type f) else None))] /\
  error c1 = EmptyString /\ uploading c1 = true /\ pc c1 = AwaitStart /\
  (startUpload_settle start = inr response ->
   emitted c1 (StartSettled start) = [Fetch (PostComplete (video response) [])] /\
   pc (step c1 (StartSettled start)) = AwaitComplete /\
   error (step c1 (StartSettled start)) = EmptyString) /\
  (forall c0, file c0 = None ->
     handleUpload uploadId c0 = setError "Please select a file" c0).
Proof.
  intros Hf Hu Hz c1.
  pose proof (chunkFile_empty f Hz) as He.
  destruct (click_upload c uploadId f Hf Hu) as (A1 & A2 & A3 & A4 & A5 & A6).
  fold c1 in A1, A2, A3, A4, A5.
  rewrite He in A2, A6.
  split; [exact He|]. split; [exact A6|]. split; [exact A5|].
  split; [exact A4|]. split; [exact A1|]. split.
  - intros Hs.
    destruct (start_without_chunks c1 start response A1 A3 A2 Hs) as (B1 & B2 & B3).
    rewrite B3. auto.
  - intros c0 H0. unfold handleUpload. now rewrite H0.
Qed.

End PageFacts.

(* ===================================================================== *)
(** ** The statements at concrete inputs *)
(* ===================================================================== *)

Module ScenarioFacts.
Import Text Chunker Sorting Transport Page Props Scenarios.
Import ChunkerFacts SortingFacts TransportFacts PageFacts.

(** The end-to-end scenario of the specification: three chunks of 5, 5
    and 2 MB, three PUTs, the completion request with the three tokens in
    order, one poll that says processing and one that says completed. *)
Example end_to_end_trace :
  chunkFile video12 =
  [mkBlob 0 5242880; mkBlob 5242880 10485760; mkBlob 10485760 12582912] /\
  trace (run init end_to_end) =
  [Fetch (PostStart "upload-1" "video.mp4" "3" (Some "video/mp4"));
   Fetch (PutChunk "https://store.example/p1" (mkBlob 0 5242880));
   Fetch (PutChunk "https://store.example/p2" (mkBlob 5242880 10485760));
   Fetch (PutChunk "https://store.example/p3" (mkBlob 10485760 12582912));
   Fetch (PostComplete "vid" [mkCompletePart "t1" 1; mkCompletePart "t2" 2;
                              mkCompletePart "t3" 3]);
   SetTimeout 3000; Fetch (GetStatus "vid");
   SetTimeout 5000; Fetch (GetStatus "vid")] /\
  terminal_state (run init end_to_end) = Some Succeeded.
Proof. vm_compute. repeat split. Qed.

(** The second scenario: cancellation after chunk 1 has completed and
    chunk 2 is in flight. *)
Example cancel_after_first_chunk :
  let evs := started video12 start3 ++
             [PutSettled (put_ok "t1"); ClickCancel; PutSettled (put_ok "t2")] in
  trace (run init evs) =
  [Fetch (PostStart "upload-1" "video.mp4" "3" (Some "video/mp4"));
   Fetch (PutChunk "https://store.example/p1" (mkBlob 0 5242880));
   Fetch (PutChunk "https://store.example/p2" (mkBlob 5242880 10485760));
   Fetch (PostCancel "vid")] /\
  terminal_state (run init evs) = Some Cancelled.
Proof. vm_compute. repeat split. Qed.

Lemma chunker_covers_source_witness :
  1 <= CHUNK_SIZE /\ 0 <= size video12 /\
  Z.of_nat (List.length (chunkFileWith CHUNK_SIZE video12)) =
  ceil_div (size video12) CHUNK_SIZE /\
  nth_error (chunkFileWith CHUNK_SIZE video12) 2 =
  Some (mkBlob (Z.of_nat 2 * CHUNK_SIZE)
               (Z.min ((Z.of_nat 2 + 1) * CHUNK_SIZE) (size video12))).
Proof.
  assert (H1 : 1 <= CHUNK_SIZE) by (vm_compute; discriminate).
  assert (H2 : 0 <= size video12) by (vm_compute; discriminate).
  split; [exact H1|]. split; [exact H2|].
  destruct (chunker_covers_source CHUNK_SIZE video12 H1 H2) as (_ & Hlen & _ & Hnth & _).
  split; [exact Hlen|]. apply Hnth. vm_compute. lia.
Defined.

(** The completion request of a successful upload can carry the same
    part number twice: the destinations of the start response are used as
    they come. *)
Lemma complete_receives_duplicate_numbers :
  terminal_state (run init twice_1) = Some Succeeded /\
  cancelledRef (run init twice_1) = false /\
  In (Fetch (PostComplete "vid" twice_1_parts)) (trace (run init twice_1)) /\
  ~ NoDup (map PartNumber twice_1_parts) /\
  ~ StronglySorted Z.lt (map PartNumber twice_1_parts).
Proof.
  split; [vm_compute; reflexivity|]. split; [vm_compute; reflexivity|].
  split; [vm_compute; auto 10|]. split.
  - intros H. inversion H as [|x l Hn _]; subst. apply Hn. now left.
  - intros H. inversion H as [|x l _ Hf]; subst.
    inversion Hf as [|y m Hlt _]; subst. lia.
Qed.

Lemma complete_receives_sorted_parts_witness :
  reachable third_put_in_flight /\
  In (Fetch (PostComplete "vid" [mkCompletePart "t1" 1; mkCompletePart "t2" 2;
                                 mkCompletePart "t3" 3]))
     (emitted third_put_in_flight (PutSettled (put_ok "t3"))) /\
  StronglySorted Z.le [1; 2; 3] /\
  List.length (chunks (step third_put_in_flight (PutSettled (put_ok "t3")))) = 3%nat.
Proof.
  assert (Hr : reachable third_put_in_flight) by (eexists; reflexivity).
  assert (Hin : In (Fetch (PostComplete "vid" [mkCompletePart "t1" 1; mkCompletePart "t2" 2;
                                               mkCompletePart "t3" 3]))
                   (emitted third_put_in_flight (PutSettled (put_ok "t3"))))
    by (vm_compute; left; reflexivity).
  split; [exact Hr|]. split; [exact Hin|].
  destruct (complete_receives_sorted_parts _ _ _ _ Hr Hin)
    as (_ & _ & Hlen & Hs & _).
  split; [exact Hs|]. symmetry. exact Hlen.
Defined.

(** Three rejected requests: the error that reaches the caller is the
    one [fetch] raised, and it does not mention part 7. *)
Lemma exhausted_network_error_names_no_part :
  Forall (fails part7) (repeat network_down 3) /\
  uploadChunkToS3 (repeat network_down 3) (mkBlob 0 3) part7 0 =
  mkUpload (Some (inl (Error "Failed to fetch")))
           (repeat (PutChunk (url part7) (mkBlob 0 3)) 3) /\
  references_part (Error "Failed to fetch") part7 = false.
Proof.
  split; [|split; reflexivity].
  repeat constructor; eexists; reflexivity.
Qed.

Lemma part_upload_retry_witness :
  Forall (fails part7) [put_forbidden; put_no_etag] /\
  uploadChunkToS3 [put_forbidden; put_no_etag; put_forbidden] (mkBlob 0 3) part7 0 =
  mkUpload (Some (inl (Error "Failed to upload chunk 7: 403 Forbidden - denied")))
           (repeat (PutChunk (url part7) (mkBlob 0 3)) 3) /\
  references_part (Error "Failed to upload chunk 7: 403 Forbidden - denied") part7 = true.
Proof.
  assert (HF : Forall (fails part7) [put_forbidden; put_no_etag])
    by (repeat constructor; eexists; reflexivity).
  split; [exact HF|].
  destruct (part_upload_retry part7 (mkBlob 0 3) [put_forbidden; put_no_etag]
                              put_forbidden [] HF) as [_ H].
  destruct (H (Error "Failed to upload chunk 7: 403 Forbidden - denied")
              eq_refl eq_refl) as [H1 H2].
  split; [exact H1 | exact H2].
Defined.

Lemma cancellation_race_witness :
  reachable first_put_in_flight /\
  pc first_put_in_flight = AwaitPut 0 /\
  falsy (videoUid first_put_in_flight) = false /\
  Forall session_input [PutSettled network_down; PutSettled (put_ok "t1"); TimerFired] /\
  cancelledRef (run (step first_put_in_flight ClickCancel)
                    [PutSettled network_down; PutSettled (put_ok "t1"); TimerFired]) = true /\
  terminal_state (step (step first_put_in_flight ClickCancel) (PutSettled (put_ok "t1"))) =
  Some Cancelled.
Proof.
  assert (Hr : reachable first_put_in_flight) by (eexists; reflexivity).
  assert (Hpc : pc first_put_in_flight = AwaitPut 0) by (vm_compute; reflexivity).
  assert (Hv : falsy (videoUid first_put_in_flight) = false) by (vm_compute; reflexivity).
  assert (Hs : Forall session_input
                      [PutSettled network_down; PutSettled (put_ok "t1"); TimerFired])
    by (repeat constructor).
  split; [exact Hr|]. split; [exact Hpc|]. split; [exact Hv|]. split; [exact Hs|].
  destruct (cancellation_race first_put_in_flight 0
              [PutSettled network_down; PutSettled (put_ok "t1"); TimerFired] Hr Hpc Hv)
    as (_ & Hfin & Hany & _).
  destruct (Hany Hs) as (_ & _ & _ & Href & _).
  split; [exact Href|].
  destruct (Hfin (put_ok "t1") (mkPart 1 "https://store.example/p1") "t1"
                 eq_refl eq_refl) as (_ & _ & _ & _ & Ht).
  exact Ht.
Defined.

(** An empty file: the start request is sent with zero parts, and no
    error is raised. *)
Lemma empty_file_calls_start :
  chunkFile empty_file = [] /\
  trace (step empty_chosen (ClickUpload "upload-1")) =
  [Fetch (PostStart "upload-1" "empty.bin" "0" None)] /\
  error (step empty_chosen (ClickUpload "upload-1")) = EmptyString /\
  uploading (step empty_chosen (ClickUpload "upload-1")) = true.
Proof. vm_compute. repeat split. Qed.

Lemma empty_file_starts_upload_witness :
  file empty_chosen = Some empty_file /\ uploading empty_chosen = false /\
  size empty_file = 0 /\
  emitted empty_chosen (ClickUpload "upload-1") =
  [Fetch (PostStart "upload-1" (name empty_file) "0"
                    (if truthy (type empty_file) then Some (type empty_file) else None))].
Proof.
  assert (Hf : file empty_chosen = Some empty_file) by reflexivity.
  assert (Hu : uploading empty_chosen = false) by reflexivity.
  assert (Hz : size empty_file = 0) by reflexivity.
  split; [exact Hf|]. split; [exact Hu|]. split; [exact Hz|].
  destruct (empty_file_starts_upload empty_chosen "upload-1" empty_file
              (ok_with start1) start1 Hf Hu Hz) as (_ & H & _).
  exact H.
Defined.

Lemma etag_token_extraction_witness :
  ok (mkResponse true 200 "OK" [("etag", quoted "abc123")] EmptyString (inr tt)) = true /\
  put_attempt part7
    (Fulfilled (mkResponse true 200 "OK" [("etag", quoted "abc123")] EmptyString (inr tt))) =
  inr "abc123".
Proof.
  split; [reflexivity|].
  destruct (etag_token_extraction part7
              (mkResponse true 200 "OK" [("etag", quoted "abc123")] EmptyString (inr tt))
              eq_refl) as (_ & _ & _ & _ & H).
  exact (H (quoted "abc123") eq_refl).
Defined.

Lemma failure_after_cancel_suppressed_witness :
  reachable cancelled_in_flight /\
  cancelledRef cancelled_in_flight = true /\
  Forall session_input (repeat (PutSettled network_down) 3) /\
  error (run cancelled_in_flight (repeat (PutSettled network_down) 3)) =
  error cancelled_in_flight /\
  terminal_state (run cancelled_in_flight (repeat (PutSettled network_down) 3)) <>
  Some Failed.
Proof.
  assert (Hr : reachable cancelled_in_flight) by (eexists; reflexivity).
  assert (Href : cancelledRef cancelled_in_flight = true) by (vm_compute; reflexivity).
  assert (Hs : Forall session_input (repeat (PutSettled network_down) 3))
    by (repeat constructor).
  split; [exact Hr|]. split; [exact Href|]. split; [exact Hs|].
  destruct (failure_after_cancel_suppressed cancelled_in_flight
              (repeat (PutSettled network_down) 3) Hr Href Hs)
    as (H1 & _ & _ & _ & H5).
  split; [exact H1 | exact H5].
Defined.

(** A status other than completed that arrives after a click on Cancel:
    the poller sets no timer and [handleUpload] returns at once. *)
Lemma poll_resolves_without_delay :
  status_in_flight = run init (started note start1 ++
    [PutSettled (put_ok "t1"); CompleteSettled (ok_with tt); TimerFired]) /\
  pc (step status_in_flight ClickCancel) = AwaitStatus /\
  checkStatus_settle processing = inr (mkStatus "processing" "vid") /\
  emitted (step status_in_flight ClickCancel) (StatusSettled processing) = [] /\
  pc (step (step status_in_flight ClickCancel) (StatusSettled processing)) = Idle.
Proof. vm_compute. repeat split. Qed.

Lemma status_poller_contract_witness :
  uploading status_in_flight = true /\
  pc status_in_flight = AwaitStatus /\
  emitted status_in_flight (StatusSettled processing) = [SetTimeout 5000] /\
  pc (step status_in_flight (StatusSettled processing)) = AwaitTimer.
Proof.
  assert (U : uploading status_in_flight = true) by (vm_compute; reflexivity).
  assert (Hpc : pc status_in_flight = AwaitStatus) by (vm_compute; reflexivity).
  split; [exact U|]. split; [exact Hpc|].
  destruct (status_poller_contract status_in_flight (ok_with tt) processing U)
    as (_ & _ & H & _).
  destruct (H Hpc) as (H1 & H2 & _). split; [exact H1 | exact H2].
Defined.

Lemma chunks_paired_by_position_witness :
  reachable clip_chosen /\ file clip_chosen = Some clip /\
  uploading clip_chosen = false /\
  startUpload_settle (ok_with start_swapped) = inr start_swapped /\
  Forall2 succeeds [put_ok "t1"; put_ok "t2"] ["t1"; "t2"] /\
  List.length [put_ok "t1"; put_ok "t2"] = List.length (chunkFile clip) /\
  (1 <= List.length (chunkFile clip) <= List.length (parts start_swapped))%nat /\
  exists j chunk part,
    nth_error (chunkFile clip) j = Some chunk /\
    nth_error (parts start_swapped) j = Some part /\
    part_number part <> Z.of_nat j + 1 /\
    In (put_of (part, chunk))
       (emitted_run clip_chosen
          (ClickUpload "upload-1" :: StartSettled (ok_with start_swapped)
           :: map PutSettled [put_ok "t1"; put_ok "t2"])).
Proof.
  assert (Hr : reachable clip_chosen) by (eexists; reflexivity).
  assert (HF : Forall2 succeeds [put_ok "t1"; put_ok "t2"] ["t1"; "t2"])
    by (repeat constructor; intros part; reflexivity).
  assert (Hlen : List.length [put_ok "t1"; put_ok "t2"] = List.length (chunkFile clip))
    by reflexivity.
  assert (Hn : (1 <= List.length (chunkFile clip) <= List.length (parts start_swapped))%nat)
    by (vm_compute; lia).
  split; [exact Hr|]. split; [reflexivity|]. split; [reflexivity|].
  split; [reflexivity|]. split; [exact HF|]. split; [exact Hlen|]. split; [exact Hn|].
  destruct (chunks_paired_by_position clip_chosen "upload-1" clip
              (ok_with start_swapped) start_swapped [put_ok "t1"; put_ok "t2"]
              ["t1"; "t2"] Hr eq_refl eq_refl eq_refl HF Hlen Hn) as (_ & _ & _ & H).
  apply H. vm_compute. discriminate.
Defined.

Lemma cancel_needs_started_upload_witness :
  reachable start_in_flight /\ pc start_in_flight = AwaitStart /\
  Forall not_start_reply [ClickCancel; TimerFired; ClickCancel] /\
  step start_in_flight ClickCancel = start_in_flight /\
  cancelledRef (run start_in_flight [ClickCancel; TimerFired; ClickCancel]) = false.
Proof.
  assert (Hr : reachable start_in_flight) by (eexists; reflexivity).
  assert (Hpc : pc start_in_flight = AwaitStart) by (vm_compute; reflexivity).
  assert (Hs : Forall not_start_reply [ClickCancel; TimerFired; ClickCancel])
    by (repeat constructor).
  split; [exact Hr|]. split; [exact Hpc|]. split; [exact Hs|].
  destruct (cancel_needs_started_upload start_in_flight) as [Hnoop Hbefore].
  destruct (Hbefore Hr Hpc) as (_ & Hvid & Hrun).
  split.
  - apply Hnoop. left. rewrite Hvid. reflexivity.
  - destruct (Hrun _ Hs) as (_ & H & _). exact H.
Defined.

End ScenarioFacts.

(* ===================================================================== *)
(** ** Further facts *)
(* ===================================================================== *)

Module MoreFacts.
Import Text Chunker Sorting Transport Page Props Scenarios MoreProps.
Import ChunkerFacts SortingFacts TransportFacts PageFacts.

(** *** Sizes of the chunks *)

Lemma total_size_ranges C sz :
  1 <= C ->
  forall m k,
    (Z.of_nat k + Z.of_nat m) * C < sz ->
    total_size (map (range C sz) (seq k (S m))) =
    Z.min ((Z.of_nat k + Z.of_nat m + 1) * C) sz - Z.of_nat k * C.
Proof.
  intros HC. induction m as [|m IH]; intros k H.
  - cbn [seq map total_size]. unfold blob_size, range. cbn [blob_start blob_end].
    change (Z.of_nat 0) with 0.
    replace (Z.of_nat k + 0 + 1) with (Z.of_nat k + 1) by lia. apply Z.add_0_r.
  - change (seq k (S (S m))) with (k :: seq (S k) (S m)). cbn [map total_size].
    assert (E1 : Z.of_nat (S k) = Z.of_nat k + 1) by lia.
    assert (E2 : Z.of_nat (S m) = Z.of_nat m + 1) by lia.
    rewrite E2 in H.
    rewrite IH by (rewrite E1; nia).
    unfold blob_size, range. cbn [blob_start blob_end].
    rewrite (Z.min_l ((Z.of_nat k + 1) * C)) by nia.
    rewrite E1, E2.
    replace (Z.of_nat k + 1 + Z.of_nat m + 1) with (Z.of_nat k + (Z.of_nat m + 1) + 1) by lia.
    lia.
Qed.

Lemma chunks_are_ranges C file :
  1 <= C -> 0 <= size file ->
  let n := Z.to_nat (ceil_div (size file) C) in
  chunkFileWith C file = map (range C (size file)) (seq 0 n) /\
  Z.of_nat n = ceil_div (size file) C /\
  ((0 < n)%nat -> C * (Z.of_nat n - 1) < size file <= C * Z.of_nat n).
Proof.
  intros HC Hs n.
  assert (Hn : Z.of_nat n = ceil_div (size file) C)
    by (subst n; rewrite Z2Nat.id; auto using ceil_div_nonneg).
  split; [now apply chunkFileWith_ranges|]. split; [exact Hn|].
  intros Hp. rewrite Hn. apply ceil_div_bounds; [exact HC|].
  destruct (Z.eq_dec (size file) 0) as [Z0|]; [|lia].
  rewrite Z0, ceil_div_0 in Hn by lia. lia.
Qed.

(** X1. For a chunk size [C >= 1], every chunk holds between 1 and [C]
    bytes, every chunk but the last holds exactly [C] bytes, and the
    chunks together hold as many bytes as the file. *)
Theorem chunk_sizes (C : Z) (file : File) :
  1 <= C -> 0 <= size file ->
  let chunks := chunkFileWith C file in
  Forall (fun b => 1 <= blob_size b <= C) chunks /\
  (forall j b, nth_error chunks j = Some b -> (S j < List.length chunks)%nat ->
     blob_size b = C) /\
  total_size chunks = size file.
Proof.
  intros HC Hs chunks.
  destruct (chunks_are_ranges C file HC Hs) as (E & _ & Hb).
  fold chunks in E. clearbody chunks.
  set (n := Z.to_nat (ceil_div (size file) C)) in *.
  assert (Hn : List.length chunks = n) by (rewrite E, length_map, length_seq; reflexivity).
  split; [|split].
  - apply Forall_forall. intros b Hin.
    apply In_nth_error in Hin as [j Hj].
    assert (Hlt : (j < n)%nat) by (rewrite <- Hn; eapply nth_error_lt; eauto).
    rewrite E, nth_error_ranges in Hj by exact Hlt. injection Hj as <-.
    specialize (Hb ltac:(lia)).
    unfold blob_size, range. cbn [blob_start blob_end]. nia.
  - intros j b Hj Hlast.
    assert (Hlt : (j < n)%nat) by lia.
    rewrite E, nth_error_ranges in Hj by exact Hlt. injection Hj as <-.
    specialize (Hb ltac:(lia)).
    unfold blob_size, range. cbn [blob_start blob_end].
    rewrite Z.min_l by nia. lia.
  - rewrite E. destruct n as [|m] eqn:En; [|].
    + cbn. specialize (chunks_are_ranges C file HC Hs) as (_ & Hz & _).
      fold n in Hz. rewrite En in Hz. cbn in Hz.
      destruct (Z.eq_dec (size file) 0) as [Z0|NZ]; [lia|].
      pose proof (ceil_div_pos C (size file) HC ltac:(lia)). lia.
    + specialize (Hb ltac:(lia)).
      rewrite total_size_ranges by (try assumption; nia).
      rewrite Z.min_r by nia. cbn. lia.
Qed.

(** *** Quotes at one end only *)

Lemma strip_trailing_unquoted s : ends_unquoted s -> strip_trailing_quote s = s.
Proof.
  unfold ends_unquoted. induction s as [|c s IH]; [reflexivity|].
  destruct s as [|d s].
  - cbn. now intros ->.
  - intros H. change (strip_trailing_quote (String c (String d s)))
      with (String c (strip_trailing_quote (String d s))).
    f_equal. apply IH. exact H.
Qed.

Lemma strip_leading_unquoted s : starts_unquoted s -> strip_leading_quote s = s.
Proof. destruct s as [|c s]; [reflexivity|]. cbn. now intros ->. Qed.

(** X2. The pattern removes a quote only where there is one: a value with
    a quote at its end only (such as a weak ETag, which begins with W/)
    loses that quote and keeps the one inside; a value with a quote at its
    start only loses that one; a value with no quote at either end is only
    trimmed. *)
Theorem etag_quotes_one_side (s : string) (q : ascii) :
  is_quote q = true ->
  (starts_unquoted s ->
   normalize_etag (s +++ String q EmptyString) = trim s) /\
  (ends_unquoted s -> normalize_etag (String q s) = trim s) /\
  (starts_unquoted s -> ends_unquoted s -> normalize_etag s = trim s).
Proof.
  intros Hq. unfold normalize_etag, replace_quotes. split; [|split].
  - intros Hs. destruct s as [|c s].
    + cbn. rewrite Hq. reflexivity.
    + rewrite strip_leading_unquoted by exact Hs.
      now rewrite strip_trailing_quote_snoc.
  - intros He. cbn [strip_leading_quote]. rewrite Hq.
    now rewrite strip_trailing_unquoted.
  - intros Hs He. now rewrite strip_leading_unquoted, strip_trailing_unquoted.
Qed.

(** *** Tokens *)

Lemma put_attempt_clean part reply etag :
  put_attempt part reply = inr etag -> clean_token etag.
Proof.
  unfold put_attempt. destruct reply as [e|r]; [discriminate|].
  destruct (negb (ok r)); [discriminate|].
  destruct (truthy (normalize_etag (etag_header (headers r)))) eqn:E;
    cbn [negb]; [|discriminate].
  intros [= <-]. split; [exact E|]. apply trim_clean.
Qed.

Lemma step_clean_tokens c ev :
  Forall (fun p => clean_token (ETag p)) (completeParts c) ->
  Forall (fun p => clean_token (ETag p)) (completeParts (step c ev)).
Proof.
  intros H.
  assert (Hadd : forall part reply etag,
             put_attempt part reply = inr etag ->
             Forall (fun p => clean_token (ETag p))
                    (completeParts c ++ [mkCompletePart etag (part_number part)])).
  { intros part reply etag Hok. apply Forall_app. split; [exact H|].
    constructor; [|constructor]. eapply put_attempt_clean, Hok. }
  destruct ev; cases; auto;
    try (eapply Permutation_Forall; [apply Permutation_sym, sort_perm|]);
    eauto.
Qed.

(** X3. Every token the page holds, and every token it hands to the
    completion request, is one that a PUT returned: it is not empty and
    has no white space at either end. *)
Theorem tokens_are_clean (c : Config) (ev : Input) (vid : string)
        (ps : list CompletePart) :
  reachable c ->
  Forall (fun p => clean_token (ETag p)) (completeParts c) /\
  (In (Fetch (PostComplete vid ps)) (emitted c ev) ->
   Forall (fun p => clean_token (ETag p)) ps).
Proof.
  intros Hr.
  assert (Hc : forall c', reachable c' ->
                 Forall (fun p => clean_token (ETag p)) (completeParts c')).
  { intros c' [evs ->]. unfold run.
    induction evs as [|e evs IH] using rev_ind; [constructor|].
    rewrite fold_left_app. cbn [fold_left]. now apply step_clean_tokens. }
  split; [now apply Hc|].
  intros Hin.
  destruct (complete_emitted c ev vid ps (reachable_inv c Hr) Hin)
    as (_ & _ & _ & _ & <- & _).
  apply Hc, reachable_step, Hr.
Qed.

(** *** Requests that fail while the flag is down *)

Lemma catch_outcome c e :
  cancelledRef c = false ->
  terminal_state (catch_ e c) = Some Failed /\
  error (catch_ e c) = errorMessage e /\
  status (catch_ e c) = "Upload failed" /\
  uploading (catch_ e c) = false /\
  trace (catch_ e c) = trace c ++ [ConsoleError "Upload error:" e] /\
  completeParts (catch_ e c) = completeParts c /\
  videoUid (catch_ e c) = videoUid c.
Proof.
  intros Href. rewrite terminal_catch by exact Href.
  unfold catch_. rewrite Href. cbn [negb]. norm. auto 10.
Qed.

(** X4. When the start request fails, by rejection, by a response that is
    not ok or by a body that does not parse, the upload ends failed with
    the message of that failure; nothing but the log line is emitted (no
    PUT, no completion, no cancel request) and [videoUid] stays [null].
    For a response that is not ok the message gives its status text and
    body. *)
Theorem start_failure_ends_upload (c : Config)
        (start : Settled StartUploadResponse) (e : Exn) :
  reachable c -> pc c = AwaitStart ->
  startUpload_settle start = inl e ->
  let c' := step c (StartSettled start) in
  terminal_state c' = Some Failed /\
  error c' = errorMessage e /\
  emitted c (StartSettled start) = [ConsoleError "Upload error:" e] /\
  videoUid c' = None /\
  (forall r, start = Fulfilled r -> ok r = false ->
     error c' = "Failed to start upload: " +++ statusText r +++ " - " +++ text r).
Proof.
  intros Hr Hpc He c'.
  destruct (inv_start c (reachable_inv c Hr) Hpc) as [Href Hvid].
  assert (E : c' = catch_ e c).
  { subst c'. cbn [step]. rewrite Hpc. unfold start_settled. now rewrite He. }
  destruct (catch_outcome c e Href) as (H1 & H2 & _ & _ & H5 & _ & H7).
  rewrite <- E in H1, H2, H5, H7.
  split; [exact H1|]. split; [exact H2|].
  split; [apply emitted_one; exact H5|]. split; [congruence|].
  intros r -> Hok. rewrite H2. cbn [startUpload_settle] in He.
  rewrite Hok in He. cbn [negb] in He. injection He as <-. reflexivity.
Qed.

(** X5. When the completion request fails while the flag is down, the
    upload ends failed with the message of that failure: no timer is set
    and no status is asked for.  For a response that is not ok the message
    gives its status text and body. *)
Theorem complete_failure_ends_upload (c : Config) (done : Settled unit) (e : Exn) :
  pc c = AwaitComplete -> cancelledRef c = false ->
  completeUpload_settle done = inl e ->
  let c' := step c (CompleteSettled done) in
  terminal_state c' = Some Failed /\
  error c' = errorMessage e /\
  emitted c (CompleteSettled done) = [ConsoleError "Upload error:" e] /\
  (forall r, done = Fulfilled r -> ok r = false ->
     error c' = "Failed to complete upload: " +++ statusText r +++ " - " +++ text r).
Proof.
  intros Hpc Href He c'.
  assert (E : c' = catch_ e c).
  { subst c'. cbn [step]. rewrite Hpc. unfold complete_settled. now rewrite He. }
  destruct (catch_outcome c e Href) as (H1 & H2 & _ & _ & H5 & _).
  rewrite <- E in H1, H2, H5.
  split; [exact H1|]. split; [exact H2|].
  split; [apply emitted_one; exact H5|].
  intros r -> Hok. rewrite H2. cbn [completeUpload_settle] in He.
  rewrite Hok in He. cbn [negb] in He. injection He as <-. reflexivity.
Qed.

(** X6. When a chunk fails [MAX_RETRIES + 1] times in a row while the
    flag is down, the page has sent the same PUT [MAX_RETRIES] more
    times, then ends the upload as failed with the message of the last
    failure; it keeps the entries collected before and sends neither a
    further PUT nor the completion request.  (The trace holds requests,
    timers and the error line of [handleUpload]; the console lines of
    [uploadChunkToS3] itself are not part of it.) *)
Theorem chunk_failure_ends_upload (c : Config) (chunk : Blob)
        (part : PresignedPutPart) (failures : list (Settled unit))
        (final : Settled unit) (e : Exn) :
  pc c = AwaitPut 0 -> cancelledRef c = false ->
  nth_error (chunks c) (i c) = Some chunk ->
  nth_error (parts (startResponse c)) (i c) = Some part ->
  Forall (fails part) failures -> List.length failures = MAX_RETRIES ->
  put_attempt part final = inl e ->
  let c' := run c (map PutSettled (failures ++ [final])) in
  terminal_state c' = Some Failed /\
  error c' = errorMessage e /\
  completeParts c' = completeParts c /\
  emitted_run c (map PutSettled (failures ++ [final])) =
  repeat (Fetch (PutChunk (url part) chunk)) MAX_RETRIES ++
  [ConsoleError "Upload error:" e].
Proof.
  intros Hpc Href Hc Hp HF Hlen He c'.
  destruct (page_follows_uploadChunkToS3 c chunk part failures final e
              Hpc Hc Hp HF Hlen He) as (_ & _ & Hrun).
  destruct (page_retries c chunk part failures c 0%nat Hpc eq_refl eq_refl eq_refl
                         Hc Hp HF ltac:(lia))
    as (_ & _ & _ & _ & R5 & _ & R7 & R8).
  set (c1 := run c (map PutSettled failures)) in *.
  assert (Href1 : cancelledRef c1 = false) by congruence.
  destruct (catch_outcome c1 e Href1) as (H1 & H2 & _ & _ & H5 & H6 & _).
  subst c'. rewrite Hrun.
  split; [exact H1|]. split; [exact H2|]. split; [congruence|].
  apply (app_inv_head (trace c)). rewrite <- emitted_run_spec, Hrun, H5.
  subst c1. rewrite emitted_run_spec, R8, Hlen, app_assoc. reflexivity.
Qed.

(** X7. When the start response has no destination for the next chunk
    (fewer destinations than chunks), the page sends nothing for that
    chunk: with the flag down the upload ends failed at once, with no
    request and no completion.  This holds for the first chunk, when the
    start response has no destination at all, and for any later chunk,
    once the PUT before it has succeeded. *)
Theorem missing_destination_ends_upload (c : Config) :
  cancelledRef c = false ->
  (forall start response chunk,
     pc c = AwaitStart ->
     startUpload_settle start = inr response ->
     nth_error (chunks c) 0 = Some chunk ->
     parts response = [] ->
     let c' := step c (StartSettled start) in
     terminal_state c' = Some Failed /\
     (forall request, ~ In (Fetch request) (emitted c (StartSettled start)))) /\
  (forall retryCount reply part etag chunk chunk',
     pc c = AwaitPut retryCount ->
     nth_error (chunks c) (i c) = Some chunk ->
     nth_error (parts (startResponse c)) (i c) = Some part ->
     put_attempt part reply = inr etag ->
     nth_error (chunks c) (i c + 1) = Some chunk' ->
     nth_error (parts (startResponse c)) (i c + 1) = None ->
     let c' := step c (PutSettled reply) in
     terminal_state c' = Some Failed /\
     completeParts c' = completeParts c ++ [mkCompletePart etag (part_number part)] /\
     (forall request, ~ In (Fetch request) (emitted c (PutSettled reply)))).
Proof.
  intros Href. split.
  - intros start response chunk Hpc Hs Hc Hnil c'. subst c'.
    unfold emitted, terminal_state. cbn [step]. rewrite Hpc.
    unfold start_settled. rewrite Hs. norm. rewrite Href.
    unfold for_loop. norm. rewrite Hc, Href, Hnil. cbn [nth_error].
    unfold uploadChunkToS3_call, catch_. norm. rewrite Href. cbn [negb]. norm.
    rewrite skipn_length_app, Href. split; [reflexivity|].
    intros request [H|[]]. discriminate H.
  - intros retryCount reply part etag chunk chunk' Hpc Hc Hp Hok Hc' Hp' c'. subst c'.
    unfold emitted, terminal_state. cbn [step]. rewrite Hpc.
    unfold put_settled. rewrite Hc, Hp, Hok.
    unfold for_loop. norm. rewrite Hc', Href, Hp'.
    unfold uploadChunkToS3_call, catch_. norm. rewrite Href. cbn [negb]. norm.
    rewrite skipn_length_app, Href. split; [reflexivity|]. split; [reflexivity|].
    intros request [H|[]]. discriminate H.
Qed.

(** *** Polling until the backend is done *)

Lemma poll_round_processing c reply :
  pc c = AwaitTimer -> cancelledRef c = false -> still_processing reply ->
  let c' := run c (poll_round reply) in
  pc c' = AwaitTimer /\ cancelledRef c' = false /\
  startResponse c' = startResponse c /\ error c' = error c /\
  uploading c' = uploading c /\
  emitted_run c (poll_round reply) =
  [Fetch (GetStatus (video (startResponse c))); SetTimeout 5000].
Proof.
  intros Hpc Href (sd & Hs & Hne). unfold poll_round.
  rewrite !emitted_run_cons, emitted_run_nil. unfold emitted.
  cbn [run fold_left step]. rewrite Hpc. unfold poll. rewrite Href. norm.
  unfold poll_settled. rewrite Hs. norm. rewrite Hne, Href. norm.
  rewrite !skipn_length_app. auto 10.
Qed.

Lemma poll_round_completed c reply :
  pc c = AwaitTimer -> cancelledRef c = false -> says_completed reply ->
  let c' := run c (poll_round reply) in
  terminal_state c' = Some Succeeded /\ progress c' = 100%Q /\
  error c' = error c /\ status c' = "Upload completed successfully!" /\
  emitted_run c (poll_round reply) = [Fetch (GetStatus (video (startResponse c)))].
Proof.
  intros Hpc Href (sd & Hs & He). unfold poll_round.
  rewrite !emitted_run_cons, emitted_run_nil. unfold emitted.
  cbn [run fold_left step]. rewrite Hpc. unfold poll. rewrite Href. norm.
  unfold poll_settled. rewrite Hs. norm. rewrite He.
  rewrite terminal_after_poll. norm. rewrite Href.
  unfold after_poll. norm. rewrite Href. cbn [negb]. norm.
  rewrite skipn_length_app, skipn_all. auto 10.
Qed.

(** X8. The poller has no limit on the number of polls: however many
    replies say something other than completed, it asks again after each
    of them, 5000 ms later, and when a reply at last says completed the
    upload ends succeeded, with progress 100 and [error] untouched.  With
    [k] such replies before the last, exactly [k + 1] status requests are
    sent, all for the video of the start response. *)
Theorem polling_until_completed (c : Config) (others : list (Settled UploadStatus))
        (done : Settled UploadStatus) :
  pc c = AwaitTimer -> cancelledRef c = false ->
  Forall still_processing others -> says_completed done ->
  let evs := flat_map poll_round (others ++ [done]) in
  let ask := Fetch (GetStatus (video (startResponse c))) in
  terminal_state (run c evs) = Some Succeeded /\
  progress (run c evs) = 100%Q /\
  error (run c evs) = error c /\
  emitted_run c evs = flat_map (fun _ => [ask; SetTimeout 5000]) others ++ [ask].
Proof.
  intros Hpc Href HF Hd. revert c Hpc Href.
  induction HF as [|reply others Hr HF IH]; intros c Hpc Href.
  - cbn [app flat_map]. rewrite app_nil_r.
    destruct (poll_round_completed c done Hpc Href Hd) as (H1 & H2 & H3 & _ & H5).
    auto.
  - cbn [app flat_map]. cbv zeta.
    destruct (poll_round_processing c reply Hpc Href Hr)
      as (P1 & P2 & P3 & P4 & _ & P6).
    specialize (IH (run c (poll_round reply)) P1 P2). cbv zeta in IH.
    destruct IH as (I1 & I2 & I3 & I4).
    rewrite run_app.
    split; [exact I1|]. split; [exact I2|]. split; [congruence|].
    apply (app_inv_head (trace c)).
    rewrite <- emitted_run_spec, run_app, emitted_run_spec, I4, P3.
    rewrite emitted_run_spec, P6, <- !app_assoc. reflexivity.
Qed.

(** *** Tokens and part numbers in the completion request *)

Lemma In_combine_nth {A B} (l : list A) (m : list B) a b :
  In (a, b) (combine l m) ->
  exists j, nth_error l j = Some a /\ nth_error m j = Some b.
Proof.
  revert m. induction l as [|x l IH]; intros [|y m] H; cbn in H; try contradiction.
  destruct H as [[= -> ->] | H].
  - exists 0%nat. split; reflexivity.
  - destruct (IH m H) as (j & Ha & Hb). exists (S j). split; assumption.
Qed.

Lemma map_snd_combine {A B} (l : list A) (m : list B) :
  (List.length l <= List.length m)%nat ->
  map snd (combine l m) = firstn (List.length l) m.
Proof.
  revert m. induction l as [|x l IH]; intros [|y m] H; cbn in *; try reflexivity; try lia.
  f_equal. apply IH. lia.
Qed.

Lemma StronglySorted_unmap {A B} (f : A -> B) (R : B -> B -> Prop) l :
  StronglySorted R (map f l) -> StronglySorted (fun a b => R (f a) (f b)) l.
Proof.
  induction l as [|a l IH]; cbn [map]; intros H; [constructor|].
  inversion H as [|x m Hs Hf]; subst. constructor; [now apply IH|].
  now rewrite Forall_map in Hf.
Qed.

(** X9. In an upload that runs through, every entry of the completion
    request pairs the token of some chunk [j] with the part number of
    destination [j]; when the part numbers of the destinations used are
    pairwise different, the entry that carries a part number carries the
    token of the PUT sent to the destination with that number; and when
    the destinations come in ascending order of part number, the entries
    go out in the order of the chunks. *)
Theorem tokens_keep_their_part (c : Config) (uploadId : string) (f : File)
        (start : Settled StartUploadResponse) (response : StartUploadResponse)
        (replies : list (Settled unit)) (etags : list string) :
  reachable c -> file c = Some f -> uploading c = false ->
  startUpload_settle start = inr response ->
  Forall2 succeeds replies etags ->
  List.length replies = List.length (chunkFile f) ->
  (1 <= List.length (chunkFile f) <= List.length (parts response))%nat ->
  let n := List.length (chunkFile f) in
  let used := firstn n (parts response) in
  let evs := ClickUpload uploadId :: StartSettled start :: map PutSettled replies in
  let ps := completeParts (run c evs) in
  In (Fetch (PostComplete (video response) ps)) (emitted_run c evs) /\
  (forall entry, In entry ps ->
     exists j part etag,
       nth_error (parts response) j = Some part /\
       nth_error etags j = Some etag /\
       entry = mkCompletePart etag (part_number part)) /\
  (NoDup (map part_number used) ->
   forall j part etag entry,
     nth_error (parts response) j = Some part ->
     nth_error etags j = Some etag ->
     In entry ps -> PartNumber entry = part_number part ->
     ETag entry = etag) /\
  (StronglySorted Z.le (map part_number used) ->
   ps = map entry_of (combine etags (parts response))).
Proof.
  intros Hr Hf Hu Hs HF Hlen Hn n used evs ps.
  pose proof (upload_runs_through c uploadId f start response replies etags
                (reachable_inv c Hr) Hf Hu Hs HF Hlen Hn) as (_ & _ & Hcp & Hem).
  fold evs in Hcp, Hem. fold ps in Hcp.
  assert (Hle : List.length etags = n)
    by (rewrite <- (Forall2_length HF); exact Hlen).
  assert (Hentry : forall entry, In entry ps ->
            exists j part etag,
              nth_error (parts response) j = Some part /\
              nth_error etags j = Some etag /\
              entry = mkCompletePart etag (part_number part)).
  { intros entry Hin. rewrite Hcp in Hin.
    apply (Permutation_in _ (sort_perm _)) in Hin.
    apply in_map_iff in Hin as ([etag part] & <- & Hin).
    apply In_combine_nth in Hin as (j & He & Hp).
    exists j, part, etag. auto. }
  split; [|split; [exact Hentry | split]].
  - rewrite Hem, <- Hcp. right. apply in_or_app. right. now left.
  - intros Hnd j part etag entry Hp He Hin Hpn.
    destruct (Hentry entry Hin) as (j' & part' & etag' & Hp' & He' & ->).
    cbn [PartNumber ETag] in *.
    assert (Hj : (j < n)%nat) by (rewrite <- Hle; eapply nth_error_lt; eauto).
    assert (Hj' : (j' < n)%nat) by (rewrite <- Hle; eapply nth_error_lt; eauto).
    assert (E : j' = j).
    { apply (proj1 (NoDup_nth_error _) Hnd).
      - subst used. rewrite length_map, length_firstn. lia.
      - subst used. rewrite !nth_error_map, !nth_error_firstn.
        destruct (Nat.ltb_spec j' n); [|lia]. destruct (Nat.ltb_spec j n); [|lia].
        rewrite Hp, Hp'. cbn. now rewrite Hpn. }
    subst j'. congruence.
  - intros Hsorted. rewrite Hcp. apply sort_sorted_id.
    apply (StronglySorted_unmap PartNumber Z.le).
    rewrite map_map.
    replace (map (fun x => PartNumber (entry_of x)) (combine etags (parts response)))
      with (map part_number (map snd (combine etags (parts response))))
      by (rewrite map_map; reflexivity).
    rewrite map_snd_combine by lia. rewrite Hle. exact Hsorted.
Qed.

(** *** The video a request names *)

(** X10. Every cancel, completion and status request names the video of
    the start response of the upload in progress, never one left from an
    earlier upload. *)
Theorem requests_carry_video (c : Config) (ev : Input) :
  reachable c ->
  Forall (carries_video (video (startResponse (step c ev)))) (emitted c ev).
Proof.
  intros Hr. destruct (reachable_inv c Hr) as [Hidle _ Hstart Hvideo _].
  destruct ev; cases_emitted; repeat constructor; cbn [carries_video].
  assert (N1 : pc c <> Idle) by (intros E; apply Hidle in E; discriminate E).
  assert (N2 : pc c <> AwaitStart) by (intros E; destruct (Hstart E); discriminate).
  specialize (Hvideo N1 N2). congruence.
Qed.

(** *** The retry counter *)

Lemma step_retry_bound c ev :
  (forall retryCount, pc c = AwaitPut retryCount -> (retryCount <= MAX_RETRIES)%nat) ->
  forall retryCount,
    pc (step c ev) = AwaitPut retryCount -> (retryCount <= MAX_RETRIES)%nat.
Proof.
  intros H. destruct ev; cases; intros count Hn; try discriminate Hn;
    try congruence; try (apply H; congruence);
    try (now apply H); try (injection Hn as <-);
    try (unfold MAX_RETRIES; lia);
    try match goal with
        | L : Nat.ltb _ MAX_RETRIES = true |- _ => apply Nat.ltb_lt in L; lia
        end.
Qed.

(** X11. The retry counter of the PUT in flight never exceeds
    [MAX_RETRIES]: for one chunk the page sends its PUT at most
    [MAX_RETRIES + 1] times, and a failure at the last count is not
    retried. *)
Theorem retries_are_bounded (c : Config) (retryCount : nat) :
  reachable c -> pc c = AwaitPut retryCount ->
  (retryCount <= MAX_RETRIES)%nat /\
  (forall reply part e,
     nth_error (parts (startResponse c)) (i c) = Some part ->
     put_attempt part reply = inl e -> retryCount = MAX_RETRIES ->
     forall request, ~ In (Fetch request) (emitted c (PutSettled reply))).
Proof.
  intros Hr Hpc. split.
  - destruct Hr as [evs ->]. revert retryCount Hpc. unfold run.
    induction evs as [|ev evs IH] using rev_ind; [discriminate|].
    rewrite fold_left_app. cbn [fold_left]. now apply step_retry_bound.
  - intros reply part e Hp He -> request.
    destruct (inv_put c (reachable_inv c Hr) _ Hpc) as ([chunk Hc] & _).
    unfold emitted.
    rewrite (put_retry_step c MAX_RETRIES chunk part reply e Hpc Hc Hp He).
    rewrite Nat.ltb_irrefl. unfold catch_.
    destruct (cancelledRef c); cbn [negb]; norm;
      rewrite ?skipn_length_app, ?skipn_all; intros [H|[]] || intros []; discriminate H.
Qed.

(** *** Clicks on Cancel *)

Lemma click_cancel_effect c v :
  uploading c = true -> videoUid c = Some v -> truthy v = true ->
  let c' := step c ClickCancel in
  uploading c' = true /\ videoUid c' = Some v /\ pc c' = pc c /\
  cancelledRef c' = true /\ completeParts c' = completeParts c /\
  i c' = i c /\ error c' = error c /\
  pendingCancels c' = S (pendingCancels c) /\
  emitted c ClickCancel = [Fetch (PostCancel v)].
Proof.
  intros U V T. unfold emitted. cbn [step]. rewrite U. unfold handleCancel.
  rewrite V, U. cbn [falsy]. rewrite T. cbn [negb orb]. norm. rewrite V. norm.
  rewrite skipn_length_app. auto 10.
Qed.

(** X12. Cancelling is not idempotent towards the backend: once the start
    response has brought a non-empty video id, every click on Cancel
    during the upload sends one more cancel request, [k] clicks send [k]
    requests, while the request in flight and the collected parts stay as
    they are and the flag is up from the first click on. *)
Theorem every_click_notifies (c : Config) (v : string) (k : nat) :
  uploading c = true -> videoUid c = Some v -> truthy v = true ->
  let c' := run c (repeat ClickCancel k) in
  emitted_run c (repeat ClickCancel k) = repeat (Fetch (PostCancel v)) k /\
  pendingCancels c' = (pendingCancels c + k)%nat /\
  pc c' = pc c /\ i c' = i c /\ completeParts c' = completeParts c /\
  error c' = error c /\
  ((0 < k)%nat -> cancelledRef c' = true).
Proof.
  revert c. induction k as [|k IH]; intros c U V T.
  - cbn [repeat run fold_left]. rewrite emitted_run_nil, Nat.add_0_r.
    repeat split; auto. lia.
  - cbn [repeat]. cbv zeta. rewrite emitted_run_cons. cbn [run fold_left].
    destruct (click_cancel_effect c v U V T)
      as (U' & V' & P & R & CP & I & E & PC & EM).
    destruct (IH (step c ClickCancel) U' V' T) as (H1 & H2 & H3 & H4 & H5 & H6 & H7).
    unfold run in *. rewrite EM, H1, H2, H3, H4, H5, H6, PC.
    repeat split; auto; try lia.
    intros _. destruct k as [|k]; [exact R | apply H7; lia].
Qed.

(** *** After the flag is up, in any phase *)




(** *** How an upload ends *)

(** X14. Whenever [handleUpload] returns, the upload has ended in one of
    the three terminal states, and which one is decided by the flag and by
    how the last request settled: cancelled exactly when the flag is up;
    succeeded only when the flag is down and a status reply has just said
    completed; failed only when the flag is down and something threw,
    whose message is then shown and logged. *)
Theorem upload_end_is_classified (c : Config) (ev : Input) :
  uploading c = true -> uploading (step c ev) = false ->
  let c' := step c ev in
  exists t, terminal_state c' = Some t /\
  match t with
  | Cancelled => cancelledRef c = true /\ error c' = error c
  | Succeeded =>
      cancelledRef c = false /\ pc c = AwaitStatus /\ error c' = error c /\
      exists reply, ev = StatusSettled reply /\ says_completed reply
  | Failed =>
      cancelledRef c = false /\
      exists e, error c' = errorMessage e /\
                emitted c ev = [ConsoleError "Upload error:" e]
  end.
Proof.
  intros U. unfold terminal_state, says_completed.
  destruct ev; cases_emitted; rewrite ?U; intros U'; try discriminate U';
    repeat match goal with
           | H : cancelledRef c = _ |- _ => rewrite H in *
           end; cbn [negb] in *; try discriminate;
    try (exists Cancelled; split; [reflexivity|]; auto; fail);
    try (exists Failed; split; [reflexivity|]; eauto; fail);
    try (exists Succeeded; split; [reflexivity|]; eauto 10; fail).
Qed.

(** *** What is uploaded *)

Lemma chunkFile_negative file : size file < 0 -> chunkFile file = [].
Proof.
  intros H. unfold chunkFile, chunkFileWith, iterations. cbn [chunkLoop].
  destruct (Z.ltb_spec 0 (size file)); [lia | reflexivity].
Qed.

Lemma chunk_in_file file body :
  In body (chunkFile file) ->
  0 <= blob_start body < blob_end body /\ blob_end body <= size file /\
  blob_size body <= CHUNK_SIZE.
Proof.
  intros Hin. destruct (Z_lt_le_dec (size file) 0) as [Hneg|Hs].
  - rewrite chunkFile_negative in Hin by exact Hneg. contradiction.
  - assert (HC : 1 <= CHUNK_SIZE) by (unfold CHUNK_SIZE; lia).
    destruct (chunks_are_ranges CHUNK_SIZE file HC Hs) as (E & _ & Hb).
    set (n := Z.to_nat (ceil_div (size file) CHUNK_SIZE)) in *.
    unfold chunkFile in Hin. rewrite E in Hin.
    apply in_map_iff in Hin as (j & <- & Hj). apply in_seq in Hj.
    specialize (Hb ltac:(lia)).
    unfold blob_size, range. cbn [blob_start blob_end]. nia.
Qed.

Lemma step_keeps_file c ev :
  uploading c = true ->
  file (step c ev) = file c /\
  (uploading (step c ev) = true -> chunks (step c ev) = chunks c).
Proof.
  intros U. cbn [step].
  destruct ev; cases; auto; try discriminate.
  rewrite U in *. cbn [negb] in *. rewrite andb_false_r in *. discriminate.
Qed.

(** X15. While an upload runs, the selected file and its chunk list do
    not change, and every PUT the page sends carries a chunk of the
    selected file: a non-empty range of bytes inside the file, of at most
    [CHUNK_SIZE] bytes. *)
Theorem puts_carry_the_selected_file (c : Config) (ev : Input) :
  reachable c ->
  (uploading c = true ->
   file (step c ev) = file c /\
   (uploading (step c ev) = true -> chunks (step c ev) = chunks c)) /\
  (forall to body,
     In (Fetch (PutChunk to body)) (emitted c ev) ->
     exists f,
       file (step c ev) = Some f /\ In body (chunkFile f) /\
       0 <= blob_start body < blob_end body /\ blob_end body <= size f /\
       blob_size body <= CHUNK_SIZE).
Proof.
  intros Hr. split; [apply step_keeps_file|].
  intros to body Hin.
  pose proof (reachable_inv c Hr) as HI.
  destruct (put_emitted c ev to body HI Hin) as (Hc & [retryCount Hpc] & _).
  pose proof (step_inv c ev HI) as HI'.
  assert (U : uploading (step c ev) = true).
  { destruct (uploading (step c ev)) eqn:E; [reflexivity|].
    apply (inv_idle _ HI') in E. congruence. }
  destruct (inv_chunks _ HI' U) as (f & Hf & Hch).
  exists f. rewrite Hch in Hc. apply nth_error_In in Hc.
  split; [exact Hf|]. split; [exact Hc|]. now apply chunk_in_file.
Qed.

(** X16. A click on Upload sends one start request, which announces as
    many parts as the file has chunks: [total_parts] is the decimal
    numeral of [ceil (size / CHUNK_SIZE)], and the content type is passed
    on exactly when the file has one. *)
Theorem start_request_announces_chunks (c : Config) (uploadId : string) (f : File) :
  file c = Some f -> uploading c = false -> 0 <= size f ->
  emitted c (ClickUpload uploadId) =
  [Fetch (PostStart uploadId (name f)
                    (string_of_Z (ceil_div (size f) CHUNK_SIZE))
                    (if truthy (type f) then Some (type f) else None))].
Proof.
  intros Hf Hu Hs.
  destruct (click_upload c uploadId f Hf Hu) as (_ & _ & _ & _ & _ & H).
  rewrite H. unfold startUpload_request, string_of_nat.
  assert (HC : 1 <= CHUNK_SIZE) by (unfold CHUNK_SIZE; lia).
  destruct (chunks_are_ranges CHUNK_SIZE f HC Hs) as (E & Hn & _).
  unfold chunkFile. rewrite E, length_map, length_seq, Hn. reflexivity.
Qed.

(** *** One request at a time *)

(** X17. [handleUpload] has at most one request or timer outstanding: a
    step emits an awaited effect only when it is the call of
    [handleUpload] or the continuation of what it was waiting for, it
    emits at most one, and that one is what the handler waits for next;
    a continuation that does not end the upload emits exactly one.  So
    the chunks go out one after another, never two at a time. *)
Theorem one_request_at_a_time (c : Config) (ev : Input) :
  reachable c ->
  (pc c = Idle <-> uploading c = false) /\
  (filter awaited (emitted c ev) = [] \/
   exists e, filter awaited (emitted c ev) = [e] /\
             resumes (pc c) ev /\ waits_for (pc (step c ev)) e) /\
  (resumes (pc c) ev -> uploading (step c ev) = true ->
   exists e, filter awaited (emitted c ev) = [e]).
Proof.
  intros Hr. pose proof (reachable_inv _ Hr) as [Hidle _ _ _ Hput].
  split; [exact Hidle|].
  split.
  - destruct ev; cases_emitted; unfold startUpload_request;
      cbn [filter awaited app waits_for resumes];
      try (left; reflexivity);
      try (right; eexists; split; [reflexivity|]; split; exact I).
    right. eexists. split; [reflexivity|]. split; [|exact I].
    apply andb_prop in Heqb. destruct Heqb as [_ U].
    apply negb_true_iff in U. rewrite (proj2 Hidle U). exact I.
  - intros Hres. destruct ev; cbn [resumes] in Hres;
      destruct (pc c) eqn:Hpc; try contradiction.
    all: pose proof (proj1 Hidle) as Hup.
    all: cases_emitted; unfold startUpload_request;
      cbn [filter awaited app]; intros U;
      try discriminate; try (eexists; reflexivity).
    all: try (specialize (Hup eq_refl); congruence).
    all: destruct (Hput _ eq_refl) as ((? & ?) & (? & ?) & _); congruence.
Qed.

(** *** The outcome of a cancel request *)

Lemma config_ext c1 c2 :
  file c1 = file c2 -> uploading c1 = uploading c2 -> progress c1 = progress c2 ->
  status c1 = status c2 -> error c1 = error c2 -> videoUid c1 = videoUid c2 ->
  cancelled c1 = cancelled c2 -> cancelledRef c1 = cancelledRef c2 ->
  pc c1 = pc c2 -> chunks c1 = chunks c2 -> startResponse c1 = startResponse c2 ->
  i c1 = i c2 -> completeParts c1 = completeParts c2 -> trace c1 = trace c2 ->
  pendingCancels c1 = pendingCancels c2 -> c1 = c2.
Proof.
  destruct c1, c2; cbn; intros; subst; reflexivity.
Qed.

Lemma filter_idem {A} (f : A -> bool) l : filter f (filter f l) = filter f l.
Proof.
  induction l as [|x l IH]; [reflexivity|].
  cbn [filter]. destruct (f x) eqn:E; [cbn [filter]; rewrite E, IH|]; auto.
Qed.

Ltac same_config :=
  apply config_ext; norm;
  rewrite ?filter_app, ?filter_idem; cbn [filter is_cancel_log negb String.eqb app];
  rewrite ?app_nil_r; reflexivity.

Lemma step_without_cancel_outcomes c ev :
  is_cancel_settled ev = false ->
  without_cancel_outcomes (step c ev) =
  without_cancel_outcomes (step (without_cancel_outcomes c) ev).
Proof.
  intros Hev. unfold without_cancel_outcomes.
  destruct ev; try discriminate; unfold step, has_file; cases; try congruence;
    same_config.
Qed.

Lemma cancel_settled_without_cancel_outcomes c r :
  without_cancel_outcomes (step c (CancelSettled r)) = without_cancel_outcomes c.
Proof.
  unfold without_cancel_outcomes. cases; same_config.
Qed.

(** X18. How and when the cancel requests settle makes no difference to
    the upload: a run and the same run with the settlements of the cancel
    requests left out end in the same state and have emitted the same
    requests, timers and upload errors; all that a failed cancel request
    leaves is its own log line. *)
Theorem cancel_outcome_is_ignored (c : Config) (evs : list Input) :
  without_cancel_outcomes (run c evs) =
  without_cancel_outcomes
    (run c (filter (fun ev => negb (is_cancel_settled ev)) evs)).
Proof.
  assert (G : forall evs c1 c2,
             without_cancel_outcomes c1 = without_cancel_outcomes c2 ->
             without_cancel_outcomes (run c1 evs) =
             without_cancel_outcomes
               (run c2 (filter (fun ev => negb (is_cancel_settled ev)) evs))).
  { clear. induction evs as [|ev evs IH]; intros c1 c2 H; [exact H|].
    cbn [filter]. destruct (is_cancel_settled ev) eqn:Hev; cbn [negb].
    - destruct ev; try discriminate. cbn [run fold_left]. apply IH.
      rewrite cancel_settled_without_cancel_outcomes. exact H.
    - cbn [run fold_left]. apply IH.
      rewrite (step_without_cancel_outcomes c1), (step_without_cancel_outcomes c2), H
        by assumption.
      reflexivity. }
  apply G. reflexivity.
Qed.

(** *** One upload after another *)

Ltac same_upload_goal :=
  split;
  [ unfold same_upload, shown; norm; split;
    [ reflexivity
    | first [ left; reflexivity
            | right; split;
              [ reflexivity
              | first [ left; reflexivity
                      | right; repeat split; reflexivity ] ] ] ]
  | reflexivity ].

Lemma step_same_upload c1 c2 ev :
  is_cancel_settled ev = false -> same_upload c1 c2 ->
  same_upload (step c1 ev) (step c2 ev) /\ emitted c1 ev = emitted c2 ev.
Proof.
  intros Hev [Hshown Hrest].
  destruct c1, c2. unfold shown in Hshown. cbn in Hshown, Hrest.
  injection Hshown as -> -> -> -> -> -> -> -> ->.
  destruct Hrest as [-> | [-> [-> | (-> & -> & ->)]]];
    destruct ev; try discriminate;
    unfold emitted, step, has_file; cases;
    rewrite ?skipn_length_app, ?skipn_all; same_upload_goal.
Qed.

Lemma click_upload_same_upload c1 c2 f uploadId :
  file c1 = Some f -> file c2 = Some f ->
  uploading c1 = false -> uploading c2 = false ->
  same_upload (step c1 (ClickUpload uploadId)) (step c2 (ClickUpload uploadId)) /\
  emitted c1 (ClickUpload uploadId) = emitted c2 (ClickUpload uploadId).
Proof.
  intros F1 F2 U1 U2. unfold emitted, step, has_file, handleUpload.
  rewrite F1, F2, U1, U2. cbn [negb andb]. norm.
  rewrite ?skipn_length_app. split; [|reflexivity].
  unfold same_upload, shown. norm. rewrite F1, F2.
  split; [reflexivity|]. right. split; [reflexivity|]. left. reflexivity.
Qed.

Lemma run_same_upload evs : forall c1 c2,
  Forall (fun ev => is_cancel_settled ev = false) evs -> same_upload c1 c2 ->
  same_upload (run c1 evs) (run c2 evs) /\ emitted_run c1 evs = emitted_run c2 evs.
Proof.
  induction evs as [|ev evs IH]; intros c1 c2 HF H.
  - rewrite !emitted_run_nil. split; [exact H | reflexivity].
  - inversion HF as [|? ? Hev HF']; subst.
    destruct (step_same_upload c1 c2 ev Hev H) as [H' He].
    destruct (IH _ _ HF' H') as [H'' He'].
    rewrite !emitted_run_cons, He, He'. split; [exact H'' | reflexivity].
Qed.

(** X19. An upload takes nothing over from what went before it on the
    page: from any two states with the same file selected and no upload
    running, the same click on Upload followed by the same inputs shows
    the same state at every point (file, progress, status, error, video
    id, flags) and sends the same requests and timers.  Left aside are
    the settlements of cancel requests, whose log lines are all that a
    cancelled earlier upload can still add. *)
Theorem uploads_are_independent (c1 c2 : Config) (f : File) (uploadId : string)
        (evs : list Input) :
  file c1 = Some f -> file c2 = Some f ->
  uploading c1 = false -> uploading c2 = false ->
  Forall (fun ev => is_cancel_settled ev = false) evs ->
  shown (run c1 (ClickUpload uploadId :: evs)) =
  shown (run c2 (ClickUpload uploadId :: evs)) /\
  emitted_run c1 (ClickUpload uploadId :: evs) =
  emitted_run c2 (ClickUpload uploadId :: evs).
Proof.
  intros F1 F2 U1 U2 HF.
  destruct (click_upload_same_upload c1 c2 f uploadId F1 F2 U1 U2) as [H He].
  destruct (run_same_upload evs _ _ HF H) as [[H' _] He'].
  rewrite !emitted_run_cons, He, He'. cbn [run fold_left].
  split; [exact H' | reflexivity].
Qed.

(** *** The statements at concrete inputs *)

Lemma chunk_sizes_witness :
  1 <= CHUNK_SIZE /\ 0 <= size video12 /\
  total_size (chunkFileWith CHUNK_SIZE video12) = size video12.
Proof.
  assert (H1 : 1 <= CHUNK_SIZE) by (vm_compute; discriminate).
  assert (H2 : 0 <= size video12) by (vm_compute; discriminate).
  split; [exact H1|]. split; [exact H2|].
  destruct (chunk_sizes CHUNK_SIZE video12 H1 H2) as (_ & _ & H). exact H.
Defined.

Lemma etag_quotes_one_side_witness :
  is_quote dquote = true /\ starts_unquoted weak_etag_open /\
  normalize_etag (weak_etag_open +++ String dquote EmptyString) = trim weak_etag_open.
Proof.
  assert (Hq : is_quote dquote = true) by reflexivity.
  assert (Hs : starts_unquoted weak_etag_open) by reflexivity.
  split; [exact Hq|]. split; [exact Hs|].
  destruct (etag_quotes_one_side weak_etag_open dquote Hq) as (H & _). exact (H Hs).
Defined.

Lemma tokens_are_clean_witness :
  reachable third_put_in_flight /\
  Forall (fun p => clean_token (ETag p)) (completeParts third_put_in_flight).
Proof.
  assert (Hr : reachable third_put_in_flight) by (eexists; reflexivity).
  split; [exact Hr|].
  destruct (tokens_are_clean third_put_in_flight (PutSettled (put_ok "t3")) "vid" [] Hr)
    as (H & _).
  exact H.
Defined.

Lemma start_failure_ends_upload_witness :
  reachable start_in_flight /\ pc start_in_flight = AwaitStart /\
  startUpload_settle network_down = inl (Error "Failed to fetch") /\
  terminal_state (step start_in_flight (StartSettled network_down)) = Some Failed /\
  error (step start_in_flight (StartSettled network_down)) = "Failed to fetch".
Proof.
  assert (Hr : reachable start_in_flight) by (eexists; reflexivity).
  assert (Hpc : pc start_in_flight = AwaitStart) by (vm_compute; reflexivity).
  split; [exact Hr|]. split; [exact Hpc|]. split; [reflexivity|].
  destruct (start_failure_ends_upload start_in_flight network_down
              (Error "Failed to fetch") Hr Hpc eq_refl) as (H1 & H2 & _).
  split; [exact H1 | exact H2].
Defined.

Lemma complete_failure_ends_upload_witness :
  pc complete_in_flight = AwaitComplete /\ cancelledRef complete_in_flight = false /\
  completeUpload_settle server_error =
  inl (Error "Failed to complete upload: Internal Server Error - boom") /\
  terminal_state (step complete_in_flight (CompleteSettled server_error)) = Some Failed /\
  emitted complete_in_flight (CompleteSettled server_error) =
  [ConsoleError "Upload error:"
                (Error "Failed to complete upload: Internal Server Error - boom")].
Proof.
  assert (Hpc : pc complete_in_flight = AwaitComplete) by (vm_compute; reflexivity).
  assert (Href : cancelledRef complete_in_flight = false) by (vm_compute; reflexivity).
  split; [exact Hpc|]. split; [exact Href|]. split; [reflexivity|].
  destruct (complete_failure_ends_upload complete_in_flight server_error
              (Error "Failed to complete upload: Internal Server Error - boom")
              Hpc Href eq_refl) as (H1 & _ & H3 & _).
  split; [exact H1 | exact H3].
Defined.

Lemma chunk_failure_ends_upload_witness :
  pc first_put_in_flight = AwaitPut 0 /\ cancelledRef first_put_in_flight = false /\
  nth_error (chunks first_put_in_flight) (i first_put_in_flight) =
  Some (mkBlob 0 5242880) /\
  nth_error (parts (startResponse first_put_in_flight)) (i first_put_in_flight) =
  Some (mkPart 1 "https://store.example/p1") /\
  Forall (fails (mkPart 1 "https://store.example/p1")) [network_down; put_forbidden] /\
  List.length [@network_down unit; put_forbidden] = MAX_RETRIES /\
  put_attempt (mkPart 1 "https://store.example/p1") network_down =
  inl (Error "Failed to fetch") /\
  terminal_state
    (run first_put_in_flight
         (map PutSettled ([network_down; put_forbidden] ++ [network_down]))) =
  Some Failed.
Proof.
  assert (Hpc : pc first_put_in_flight = AwaitPut 0) by (vm_compute; reflexivity).
  assert (Href : cancelledRef first_put_in_flight = false) by (vm_compute; reflexivity).
  assert (Hc : nth_error (chunks first_put_in_flight) (i first_put_in_flight) =
               Some (mkBlob 0 5242880)) by (vm_compute; reflexivity).
  assert (Hp : nth_error (parts (startResponse first_put_in_flight))
                         (i first_put_in_flight) =
               Some (mkPart 1 "https://store.example/p1")) by (vm_compute; reflexivity).
  assert (HF : Forall (fails (mkPart 1 "https://store.example/p1"))
                      [network_down; put_forbidden])
    by (repeat constructor; eexists; reflexivity).
  split; [exact Hpc|]. split; [exact Href|]. split; [exact Hc|]. split; [exact Hp|].
  split; [exact HF|]. split; [reflexivity|]. split; [reflexivity|].
  destruct (chunk_failure_ends_upload first_put_in_flight (mkBlob 0 5242880)
              (mkPart 1 "https://store.example/p1") [network_down; put_forbidden]
              network_down (Error "Failed to fetch") Hpc Href Hc Hp HF eq_refl eq_refl)
    as (H & _).
  exact H.
Defined.

Lemma missing_destination_ends_upload_witness :
  cancelledRef one_destination_short = false /\
  pc one_destination_short = AwaitPut 0 /\
  nth_error (chunks one_destination_short) (i one_destination_short + 1) =
  Some (mkBlob 5242880 5242881) /\
  nth_error (parts (startResponse one_destination_short))
            (i one_destination_short + 1) = None /\
  terminal_state (step one_destination_short (PutSettled (put_ok "t1"))) = Some Failed.
Proof.
  assert (Href : cancelledRef one_destination_short = false) by (vm_compute; reflexivity).
  assert (Hpc : pc one_destination_short = AwaitPut 0) by (vm_compute; reflexivity).
  assert (Hc' : nth_error (chunks one_destination_short) (i one_destination_short + 1) =
                Some (mkBlob 5242880 5242881)) by (vm_compute; reflexivity).
  assert (Hp' : nth_error (parts (startResponse one_destination_short))
                          (i one_destination_short + 1) = None)
    by (vm_compute; reflexivity).
  split; [exact Href|]. split; [exact Hpc|]. split; [exact Hc'|]. split; [exact Hp'|].
  destruct (missing_destination_ends_upload one_destination_short Href) as (_ & H).
  assert (Hc : nth_error (chunks one_destination_short) (i one_destination_short) =
               Some (mkBlob 0 5242880)) by (vm_compute; reflexivity).
  assert (Hp : nth_error (parts (startResponse one_destination_short))
                         (i one_destination_short) =
               Some (mkPart 1 "https://store.example/p1")) by (vm_compute; reflexivity).
  destruct (H 0%nat (put_ok "t1") (mkPart 1 "https://store.example/p1") "t1"
              (mkBlob 0 5242880) (mkBlob 5242880 5242881) Hpc Hc Hp eq_refl Hc' Hp')
    as (H1 & _).
  exact H1.
Defined.

Lemma polling_until_completed_witness :
  pc timer_pending = AwaitTimer /\ cancelledRef timer_pending = false /\
  Forall still_processing [processing; processing] /\ says_completed completed /\
  terminal_state
    (run timer_pending (flat_map poll_round ([processing; processing] ++ [completed]))) =
  Some Succeeded.
Proof.
  assert (Hpc : pc timer_pending = AwaitTimer) by (vm_compute; reflexivity).
  assert (Href : cancelledRef timer_pending = false) by (vm_compute; reflexivity).
  assert (HF : Forall still_processing [processing; processing])
    by (repeat constructor; eexists; split; reflexivity).
  assert (Hd : says_completed completed) by (eexists; split; reflexivity).
  split; [exact Hpc|]. split; [exact Href|]. split; [exact HF|]. split; [exact Hd|].
  destruct (polling_until_completed timer_pending [processing; processing] completed
              Hpc Href HF Hd) as (H & _).
  exact H.
Defined.

Lemma tokens_keep_their_part_witness :
  reachable clip_chosen /\ file clip_chosen = Some clip /\
  uploading clip_chosen = false /\
  startUpload_settle (ok_with start_swapped) = inr start_swapped /\
  Forall2 succeeds [put_ok "t1"; put_ok "t2"] ["t1"; "t2"] /\
  List.length [put_ok "t1"; put_ok "t2"] = List.length (chunkFile clip) /\
  (1 <= List.length (chunkFile clip) <= List.length (parts start_swapped))%nat /\
  NoDup (map part_number (firstn (List.length (chunkFile clip)) (parts start_swapped))) /\
  forall entry,
    In entry (completeParts
                (run clip_chosen
                     (ClickUpload "upload-1" :: StartSettled (ok_with start_swapped)
                      :: map PutSettled [put_ok "t1"; put_ok "t2"]))) ->
    PartNumber entry = 2 -> ETag entry = "t1".
Proof.
  assert (Hr : reachable clip_chosen) by (eexists; reflexivity).
  assert (HF : Forall2 succeeds [put_ok "t1"; put_ok "t2"] ["t1"; "t2"])
    by (repeat constructor; intros part; reflexivity).
  assert (Hlen : List.length [put_ok "t1"; put_ok "t2"] = List.length (chunkFile clip))
    by reflexivity.
  assert (Hn : (1 <= List.length (chunkFile clip) <= List.length (parts start_swapped))%nat)
    by (vm_compute; lia).
  assert (Hnd : NoDup (map part_number
                           (firstn (List.length (chunkFile clip)) (parts start_swapped)))).
  { vm_compute. repeat constructor; cbn; intuition discriminate. }
  split; [exact Hr|]. split; [reflexivity|]. split; [reflexivity|].
  split; [reflexivity|]. split; [exact HF|]. split; [exact Hlen|]. split; [exact Hn|].
  split; [exact Hnd|].
  destruct (tokens_keep_their_part clip_chosen "upload-1" clip
              (ok_with start_swapped) start_swapped [put_ok "t1"; put_ok "t2"]
              ["t1"; "t2"] Hr eq_refl eq_refl eq_refl HF Hlen Hn) as (_ & _ & H & _).
  intros entry Hin Hpn.
  exact (H Hnd 0%nat (mkPart 2 "https://store.example/p2") "t1" entry
           eq_refl eq_refl Hin Hpn).
Defined.

Lemma requests_carry_video_witness :
  reachable first_put_in_flight /\
  Forall (carries_video (video (startResponse (step first_put_in_flight ClickCancel))))
         (emitted first_put_in_flight ClickCancel).
Proof.
  assert (Hr : reachable first_put_in_flight) by (eexists; reflexivity).
  split; [exact Hr|]. exact (requests_carry_video first_put_in_flight ClickCancel Hr).
Defined.

Lemma retries_are_bounded_witness :
  reachable second_attempt_in_flight /\ pc second_attempt_in_flight = AwaitPut 1 /\
  (1 <= MAX_RETRIES)%nat.
Proof.
  assert (Hr : reachable second_attempt_in_flight) by (eexists; reflexivity).
  assert (Hpc : pc second_attempt_in_flight = AwaitPut 1) by (vm_compute; reflexivity).
  split; [exact Hr|]. split; [exact Hpc|].
  destruct (retries_are_bounded second_attempt_in_flight 1 Hr Hpc) as (H & _). exact H.
Defined.

Lemma every_click_notifies_witness :
  uploading first_put_in_flight = true /\ videoUid first_put_in_flight = Some "vid" /\
  truthy "vid" = true /\
  emitted_run first_put_in_flight (repeat ClickCancel 3) =
  repeat (Fetch (PostCancel "vid")) 3.
Proof.
  assert (U : uploading first_put_in_flight = true) by (vm_compute; reflexivity).
  assert (V : videoUid first_put_in_flight = Some "vid") by (vm_compute; reflexivity).
  split; [exact U|]. split; [exact V|]. split; [reflexivity|].
  destruct (every_click_notifies first_put_in_flight "vid" 3 U V eq_refl) as (H & _).
  exact H.
Defined.


Lemma upload_end_is_classified_witness :
  uploading status_in_flight = true /\
  uploading (step status_in_flight (StatusSettled completed)) = false /\
  exists t, terminal_state (step status_in_flight (StatusSettled completed)) = Some t.
Proof.
  assert (U : uploading status_in_flight = true) by (vm_compute; reflexivity).
  assert (U' : uploading (step status_in_flight (StatusSettled completed)) = false)
    by (vm_compute; reflexivity).
  split; [exact U|]. split; [exact U'|].
  destruct (upload_end_is_classified status_in_flight (StatusSettled completed) U U')
    as (t & H & _).
  exists t. exact H.
Defined.

Lemma puts_carry_the_selected_file_witness :
  reachable first_put_in_flight /\
  In (Fetch (PutChunk "https://store.example/p2" (mkBlob 5242880 10485760)))
     (emitted first_put_in_flight (PutSettled (put_ok "t1"))) /\
  exists f, file (step first_put_in_flight (PutSettled (put_ok "t1"))) = Some f /\
            In (mkBlob 5242880 10485760) (chunkFile f).
Proof.
  assert (Hr : reachable first_put_in_flight) by (eexists; reflexivity).
  assert (Hin : In (Fetch (PutChunk "https://store.example/p2" (mkBlob 5242880 10485760)))
                   (emitted first_put_in_flight (PutSettled (put_ok "t1"))))
    by (vm_compute; left; reflexivity).
  split; [exact Hr|]. split; [exact Hin|].
  destruct (puts_carry_the_selected_file first_put_in_flight (PutSettled (put_ok "t1")) Hr)
    as (_ & H).
  destruct (H _ _ Hin) as (f & Hf & Hb & _).
  exists f. split; [exact Hf | exact Hb].
Defined.

Lemma start_request_announces_chunks_witness :
  file clip_chosen = Some clip /\ uploading clip_chosen = false /\ 0 <= size clip /\
  emitted clip_chosen (ClickUpload "upload-1") =
  [Fetch (PostStart "upload-1" (name clip)
                    (string_of_Z (ceil_div (size clip) CHUNK_SIZE))
                    (if truthy (type clip) then Some (type clip) else None))].
Proof.
  assert (Hs : 0 <= size clip) by (vm_compute; discriminate).
  split; [reflexivity|]. split; [reflexivity|]. split; [exact Hs|].
  exact (start_request_announces_chunks clip_chosen "upload-1" clip eq_refl eq_refl Hs).
Defined.

Lemma one_request_at_a_time_witness :
  reachable first_put_in_flight /\
  resumes (pc first_put_in_flight) (PutSettled (put_ok "t1")) /\
  uploading (step first_put_in_flight (PutSettled (put_ok "t1"))) = true /\
  exists e,
    filter awaited (emitted first_put_in_flight (PutSettled (put_ok "t1"))) = [e].
Proof.
  assert (Hr : reachable first_put_in_flight) by (eexists; reflexivity).
  assert (Hres : resumes (pc first_put_in_flight) (PutSettled (put_ok "t1")))
    by (vm_compute; exact I).
  assert (U : uploading (step first_put_in_flight (PutSettled (put_ok "t1"))) = true)
    by (vm_compute; reflexivity).
  split; [exact Hr|]. split; [exact Hres|]. split; [exact U|].
  destruct (one_request_at_a_time first_put_in_flight (PutSettled (put_ok "t1")) Hr)
    as (_ & _ & H).
  exact (H Hres U).
Defined.

Lemma uploads_are_independent_witness :
  file clip_chosen = Some clip /\ file after_failed_upload = Some clip /\
  uploading clip_chosen = false /\ uploading after_failed_upload = false /\
  Forall (fun ev => is_cancel_settled ev = false)
         [StartSettled (ok_with start_swapped); PutSettled (put_ok "t1")] /\
  emitted_run clip_chosen
    [ClickUpload "upload-1"; StartSettled (ok_with start_swapped);
     PutSettled (put_ok "t1")] =
  emitted_run after_failed_upload
    [ClickUpload "upload-1"; StartSettled (ok_with start_swapped);
     PutSettled (put_ok "t1")].
Proof.
  assert (F1 : file clip_chosen = Some clip) by (vm_compute; reflexivity).
  assert (F2 : file after_failed_upload = Some clip) by (vm_compute; reflexivity).
  assert (U1 : uploading clip_chosen = false) by (vm_compute; reflexivity).
  assert (U2 : uploading after_failed_upload = false) by (vm_compute; reflexivity).
  assert (HF : Forall (fun ev => is_cancel_settled ev = false)
                      [StartSettled (ok_with start_swapped); PutSettled (put_ok "t1")])
    by (repeat constructor).
  split; [exact F1|]. split; [exact F2|]. split; [exact U1|]. split; [exact U2|].
  split; [exact HF|].
  destruct (uploads_are_independent clip_chosen after_failed_upload clip "upload-1"
              [StartSettled (ok_with start_swapped); PutSettled (put_ok "t1")]
              F1 F2 U1 U2 HF) as [_ H].
  exact H.
Defined.

End MoreFacts.
